(** * ResumeBuilder: the wizard's state, validation and completion

    A shallow embedding of [src/app/ResumeBuilder.tsx]: the resume aggregate,
    the per-step validation, the step navigation, the collection handlers,
    the completion percentage, the controls of the page with the sidebar and
    the preview, and the save indicator with its timers; and of the width
    computed by [src/components/ui/Progress.tsx].  The properties of the
    specification and of the code follow the definitions. *)

From Stdlib Require Import ZArith QArith Qround Ascii String Floats DecimalString DecimalZ.
From stdpp Require Import gmap strings list.

Local Open Scope Z_scope.

(** ** JavaScript strings

    A string is its sequence of UTF-16 code units.  Source literals are
    written [js "..."]. *)

Abbreviation jsstring := (list N).

Definition js (s : string) : jsstring :=
  N_of_ascii <$> list_ascii_of_string s.

(** [WhiteSpace] and [LineTerminator] of ECMAScript: the code units that
    [\s] matches and that [String.prototype.trim] strips. *)
Definition isWhiteSpace (c : N) : bool :=
  ((9 <=? c) && (c <=? 13) || (c =? 32) || (c =? 160) || (c =? 5760)
   || (8192 <=? c) && (c <=? 8202) || (c =? 8232) || (c =? 8233)
   || (c =? 8239) || (c =? 8287) || (c =? 12288) || (c =? 65279))%N.

(** [\S] *)
Definition nonSpace (c : N) : bool := negb (isWhiteSpace c).

(** Truthiness of a string: [!s] is [negb (truthy s)]. *)
Definition truthy (s : jsstring) : bool :=
  match s with [] => false | _ :: _ => true end.

Fixpoint trimStart (s : jsstring) : jsstring :=
  match s with
  | [] => []
  | c :: s' => if isWhiteSpace c then trimStart s' else s
  end.

Definition trimEnd (s : jsstring) : jsstring := reverse (trimStart (reverse s)).

(** [s.trim()] *)
Definition trim (s : jsstring) : jsstring := trimEnd (trimStart s).

(** [n.toString()] for an integral number below 1e21 in magnitude, which is
    printed in plain decimal. *)
Definition Number_toString (n : Z) : jsstring :=
  js (NilZero.string_of_int (Z.to_int n)).

(** ** Regular expressions

    The fragment of the regular-expression language the source uses, with
    [RegExp.prototype.test] for a pattern without flags: the first index is
    tried first, and a match may end anywhere. *)

Module RegExp.

Inductive t : Type :=
| Void
| Eps
| Cls (p : N -> bool)
| Cat (r1 r2 : t)
| Alt (r1 r2 : t)
| Star (r : t).

(** [c] for a literal character, [r+]. *)
Definition Chr (c : N) : t := Cls (N.eqb c).
Definition Plus (r : t) : t := Cat r (Star r).

Fixpoint nullable (r : t) : bool :=
  match r with
  | Void => false
  | Eps => true
  | Cls _ => false
  | Cat r1 r2 => nullable r1 && nullable r2
  | Alt r1 r2 => nullable r1 || nullable r2
  | Star _ => true
  end.

(** What remains of [r] to match once [c] has been read. *)
Fixpoint deriv (c : N) (r : t) : t :=
  match r with
  | Void => Void
  | Eps => Void
  | Cls p => if p c then Eps else Void
  | Cat r1 r2 =>
      if nullable r1 then Alt (Cat (deriv c r1) r2) (deriv c r2)
      else Cat (deriv c r1) r2
  | Alt r1 r2 => Alt (deriv c r1) (deriv c r2)
  | Star r1 => Cat (deriv c r1) (Star r1)
  end.

(** Does some prefix of [s] match [r]? *)
Fixpoint matchAt (r : t) (s : jsstring) : bool :=
  nullable r ||
  match s with
  | [] => false
  | c :: s' => matchAt (deriv c r) s'
  end.

(** [r.test(s)]: a match starting at index 0, else at index 1, ... *)
Fixpoint test (r : t) (s : jsstring) : bool :=
  matchAt r s ||
  match s with
  | [] => false
  | _ :: s' => test r s'
  end.

(** The words of [r]. *)
Inductive lang : t -> jsstring -> Prop :=
| lang_eps : lang Eps []
| lang_cls p c : p c = true -> lang (Cls p) [c]
| lang_cat r1 r2 s1 s2 : lang r1 s1 -> lang r2 s2 -> lang (Cat r1 r2) (s1 ++ s2)
| lang_alt_l r1 r2 s : lang r1 s -> lang (Alt r1 r2) s
| lang_alt_r r1 r2 s : lang r2 s -> lang (Alt r1 r2) s
| lang_star_nil r : lang (Star r) []
| lang_star_app r s1 s2 : lang r s1 -> lang (Star r) s2 -> lang (Star r) (s1 ++ s2).

End RegExp.

(** [/\S+@\S+\.\S+/] *)
Definition EMAIL_RE : RegExp.t :=
  RegExp.Cat (RegExp.Plus (RegExp.Cls nonSpace))
    (RegExp.Cat (RegExp.Chr 64)
       (RegExp.Cat (RegExp.Plus (RegExp.Cls nonSpace))
          (RegExp.Cat (RegExp.Chr 46)
             (RegExp.Plus (RegExp.Cls nonSpace))))).

(** ** Numbers

    Counters and step indices are integral and small, so they are kept in
    [Z]; the one division of the program is done in binary64. *)

(** The binary64 value of an integer in [0, 2^53). *)
Definition Number (n : Z) : float := of_uint63 (Uint63.of_Z n).

(** [Math.round(x)]: the integer nearest to [x], ties towards +Infinity;
    NaN, the infinities and the zeros are returned as they are. *)
Definition Math_round (x : float) : float :=
  match Prim2SF x with
  | S754_finite s m e =>
      if 0 <=? e then x
      else
        let n := (2 * (if s then Z.neg m else Z.pos m) + 2 ^ (- e)) / 2 ^ (1 - e) in
        if n =? 0 then (if s then (-0)%float else 0%float)
        else if n <? 0 then (- Number (- n))%float
        else Number n
  | _ => x
  end.

(** ** Data model *)

Module ContactInfo.
Record t : Type := mk {
  firstName : jsstring;
  lastName : jsstring;
  email : jsstring;
  phone : jsstring;
  address : jsstring;
  city : jsstring;
  state : jsstring;
  zipCode : jsstring
}.

(** [keyof ContactInfo] *)
Inductive key : Type :=
| FirstName | LastName | Email | Phone | Address | City | State | ZipCode.

Definition get (k : key) (c : t) : jsstring :=
  match k with
  | FirstName => firstName c
  | LastName => lastName c
  | Email => email c
  | Phone => phone c
  | Address => address c
  | City => city c
  | State => state c
  | ZipCode => zipCode c
  end.

(** [{ ...c, [k]: v }] *)
Definition set (k : key) (v : jsstring) (c : t) : t :=
  match k with
  | FirstName => mk v (lastName c) (email c) (phone c) (address c) (city c) (state c) (zipCode c)
  | LastName => mk (firstName c) v (email c) (phone c) (address c) (city c) (state c) (zipCode c)
  | Email => mk (firstName c) (lastName c) v (phone c) (address c) (city c) (state c) (zipCode c)
  | Phone => mk (firstName c) (lastName c) (email c) v (address c) (city c) (state c) (zipCode c)
  | Address => mk (firstName c) (lastName c) (email c) (phone c) v (city c) (state c) (zipCode c)
  | City => mk (firstName c) (lastName c) (email c) (phone c) (address c) v (state c) (zipCode c)
  | State => mk (firstName c) (lastName c) (email c) (phone c) (address c) (city c) v (zipCode c)
  | ZipCode => mk (firstName c) (lastName c) (email c) (phone c) (address c) (city c) (state c) v
  end.
End ContactInfo.

Module WorkExperience.
Record t : Type := mk {
  id : jsstring;
  company : jsstring;
  position : jsstring;
  startDate : jsstring;
  endDate : jsstring;
  current : bool;
  description : jsstring
}.

(** [keyof WorkExperience] *)
Inductive key : Type :=
| Id | Company | Position | StartDate | EndDate | Current | Description.

(** The type of the field a key names. *)
Definition value (k : key) : Type :=
  match k with
  | Current => bool
  | _ => jsstring
  end.

Definition get (k : key) (e : t) : value k :=
  match k with
  | Id => id e
  | Company => company e
  | Position => position e
  | StartDate => startDate e
  | EndDate => endDate e
  | Current => current e
  | Description => description e
  end.

(** [{ ...e, [k]: v }] *)
Definition set (k : key) : value k -> t -> t :=
  match k with
  | Id => fun v e =>
      mk v (company e) (position e) (startDate e) (endDate e) (current e) (description e)
  | Company => fun v e =>
      mk (id e) v (position e) (startDate e) (endDate e) (current e) (description e)
  | Position => fun v e =>
      mk (id e) (company e) v (startDate e) (endDate e) (current e) (description e)
  | StartDate => fun v e =>
      mk (id e) (company e) (position e) v (endDate e) (current e) (description e)
  | EndDate => fun v e =>
      mk (id e) (company e) (position e) (startDate e) v (current e) (description e)
  | Current => fun v e =>
      mk (id e) (company e) (position e) (startDate e) (endDate e) v (description e)
  | Description => fun v e =>
      mk (id e) (company e) (position e) (startDate e) (endDate e) (current e) v
  end.
End WorkExperience.

Module Education.
Record t : Type := mk {
  id : jsstring;
  institution : jsstring;
  degree : jsstring;
  field : jsstring;
  graduationDate : jsstring;
  gpa : option jsstring
}.

(** [keyof Education] *)
Inductive key : Type :=
| Id | Institution | Degree | Field | GraduationDate | Gpa.

(** [{ ...e, [k]: v }] *)
Definition set (k : key) (v : jsstring) (e : t) : t :=
  match k with
  | Id => mk v (institution e) (degree e) (field e) (graduationDate e) (gpa e)
  | Institution => mk (id e) v (degree e) (field e) (graduationDate e) (gpa e)
  | Degree => mk (id e) (institution e) v (field e) (graduationDate e) (gpa e)
  | Field => mk (id e) (institution e) (degree e) v (graduationDate e) (gpa e)
  | GraduationDate => mk (id e) (institution e) (degree e) (field e) v (gpa e)
  | Gpa => mk (id e) (institution e) (degree e) (field e) (graduationDate e) (Some v)
  end.
End Education.

Module Skill.
Inductive Level : Type := Beginner | Intermediate | Advanced | Expert.

Record t : Type := mk {
  id : jsstring;
  name : jsstring;
  level : Level
}.

(** [keyof Skill] *)
Inductive key : Type := Id | Name | TheLevel.

Definition value (k : key) : Type :=
  match k with
  | TheLevel => Level
  | _ => jsstring
  end.

(** [{ ...s, [k]: v }] *)
Definition set (k : key) : value k -> t -> t :=
  match k with
  | Id => fun v s => mk v (name s) (level s)
  | Name => fun v s => mk (id s) v (level s)
  | TheLevel => fun v s => mk (id s) (name s) v
  end.
End Skill.

Record ResumeData : Type := mkResumeData {
  contactInfo : ContactInfo.t;
  workExperience : list WorkExperience.t;
  education : list Education.t;
  skills : list Skill.t;
  summary : jsstring
}.

(** Keys and messages are literals of the source. *)
Abbreviation ValidationErrors := (gmap string string).

Definition STEPS : list (string * string) :=
  [ ("contact", "Contact Information");
    ("experience", "Work Experience");
    ("education", "Education");
    ("skills", "Skills");
    ("summary", "Summary") ]%string.

(** [STEPS.length] *)
Definition STEPS_length : Z := Z.of_nat (length STEPS).

(** ** Component state

    The [useState] cells of the component that the step logic reads and
    writes.  The save indicator and its timers are left out.  An event
    handler reads the cells of the current render and its writes take effect
    together when it returns, so a handler is a function from the state
    before the event to the state after it. *)

Record State : Type := mkState {
  currentStep : Z;
  resumeData : ResumeData;
  errors : ValidationErrors;
  showPreview : bool
}.

Definition setCurrentStep (n : Z) (st : State) : State :=
  mkState n (resumeData st) (errors st) (showPreview st).

Definition setResumeData (f : ResumeData -> ResumeData) (st : State) : State :=
  mkState (currentStep st) (f (resumeData st)) (errors st) (showPreview st).

Definition setErrors (e : ValidationErrors) (st : State) : State :=
  mkState (currentStep st) (resumeData st) e (showPreview st).

Definition setShowPreview (b : bool) (st : State) : State :=
  mkState (currentStep st) (resumeData st) (errors st) b.

(** The arguments of the [useState] calls. *)
Definition initialResumeData : ResumeData :=
  mkResumeData (ContactInfo.mk [] [] [] [] [] [] [] []) [] [] [] [].

Definition initialState : State :=
  mkState 0 initialResumeData ∅ false.

(** ** Validation *)

(** The object [newErrors] that [validateStep] builds for [stepIndex]. *)
Definition newErrors (stepIndex : Z) (resumeData : ResumeData) : ValidationErrors :=
  let contact := contactInfo resumeData in
  match stepIndex with
  | 0 =>
      let e : ValidationErrors := ∅ in
      let e :=
        if negb (truthy (ContactInfo.firstName contact))
        then <["firstName" := "First name is required"]> e else e in
      let e :=
        if negb (truthy (ContactInfo.lastName contact))
        then <["lastName" := "Last name is required"]> e else e in
      let e :=
        if negb (truthy (ContactInfo.email contact))
        then <["email" := "Email is required"]> e
        else if negb (RegExp.test EMAIL_RE (ContactInfo.email contact))
        then <["email" := "Email is invalid"]> e else e in
      let e :=
        if negb (truthy (ContactInfo.phone contact))
        then <["phone" := "Phone is required"]> e else e in
      e
  | 1 =>
      if (length (workExperience resumeData) =? 0)%nat
      then <["workExperience" := "At least one work experience is required"]> ∅
      else ∅
  | 2 =>
      if (length (education resumeData) =? 0)%nat
      then <["education" := "At least one education entry is required"]> ∅
      else ∅
  | 3 =>
      if (length (skills resumeData) =? 0)%nat
      then <["skills" := "At least one skill is required"]> ∅
      else ∅
  | 4 =>
      if negb (truthy (trim (summary resumeData)))
      then <["summary" := "Summary is required"]> ∅
      else ∅
  | _ => ∅
  end.

(** [Object.keys(o)] up to order. *)
Definition Object_keys (o : ValidationErrors) : list string := (map_to_list o).*1.

(** [validateStep(stepIndex)]: stores the errors, answers whether there are
    none. *)
Definition validateStep (stepIndex : Z) (st : State) : State * bool :=
  let newErrors := newErrors stepIndex (resumeData st) in
  (setErrors newErrors st, (length (Object_keys newErrors) =? 0)%nat).

(** ** Navigation *)

Definition nextStep (st : State) : State :=
  let '(st', valid) := validateStep (currentStep st) st in
  if valid && (currentStep st <? STEPS_length - 1)
  then setCurrentStep (currentStep st + 1) st'
  else st'.

Definition prevStep (st : State) : State :=
  if 0 <? currentStep st
  then setCurrentStep (currentStep st - 1) st
  else st.

(** The [onClick] of the sidebar button of step [index]. *)
Definition jumpTo (index : Z) (st : State) : State :=
  setCurrentStep index st.

(** ** Handlers of the aggregate

    Each is the function handed to [setResumeData]; [now] is what
    [Date.now()] returned when the handler ran. *)

Definition addWorkExperience (now : Z) (prev : ResumeData) : ResumeData :=
  let newExp := WorkExperience.mk (Number_toString now) [] [] [] [] false [] in
  mkResumeData (contactInfo prev) (workExperience prev ++ [newExp])
    (education prev) (skills prev) (summary prev).

Definition removeWorkExperience (id : jsstring) (prev : ResumeData) : ResumeData :=
  mkResumeData (contactInfo prev)
    (filter (λ exp, WorkExperience.id exp ≠ id) (workExperience prev))
    (education prev) (skills prev) (summary prev).

Definition updateWorkExperience (id : jsstring) (field : WorkExperience.key)
    (value : WorkExperience.value field) (prev : ResumeData) : ResumeData :=
  mkResumeData (contactInfo prev)
    ((λ exp, if decide (WorkExperience.id exp = id)
             then WorkExperience.set field value exp else exp)
       <$> workExperience prev)
    (education prev) (skills prev) (summary prev).

Definition addEducation (now : Z) (prev : ResumeData) : ResumeData :=
  let newEdu := Education.mk (Number_toString now) [] [] [] [] (Some []) in
  mkResumeData (contactInfo prev) (workExperience prev)
    (education prev ++ [newEdu]) (skills prev) (summary prev).

Definition removeEducation (id : jsstring) (prev : ResumeData) : ResumeData :=
  mkResumeData (contactInfo prev) (workExperience prev)
    (filter (λ edu, Education.id edu ≠ id) (education prev))
    (skills prev) (summary prev).

Definition updateEducation (id : jsstring) (field : Education.key)
    (value : jsstring) (prev : ResumeData) : ResumeData :=
  mkResumeData (contactInfo prev) (workExperience prev)
    ((λ edu, if decide (Education.id edu = id)
             then Education.set field value edu else edu)
       <$> education prev)
    (skills prev) (summary prev).

Definition addSkill (now : Z) (prev : ResumeData) : ResumeData :=
  let newSkill := Skill.mk (Number_toString now) [] Skill.Beginner in
  mkResumeData (contactInfo prev) (workExperience prev) (education prev)
    (skills prev ++ [newSkill]) (summary prev).

Definition removeSkill (id : jsstring) (prev : ResumeData) : ResumeData :=
  mkResumeData (contactInfo prev) (workExperience prev) (education prev)
    (filter (λ skill, Skill.id skill ≠ id) (skills prev))
    (summary prev).

Definition updateSkill (id : jsstring) (field : Skill.key)
    (value : Skill.value field) (prev : ResumeData) : ResumeData :=
  mkResumeData (contactInfo prev) (workExperience prev) (education prev)
    ((λ skill, if decide (Skill.id skill = id)
               then Skill.set field value skill else skill)
       <$> skills prev)
    (summary prev).

(** The [onChange] of the contact inputs. *)
Definition setContactField (field : ContactInfo.key) (value : jsstring)
    (prev : ResumeData) : ResumeData :=
  mkResumeData (ContactInfo.set field value (contactInfo prev))
    (workExperience prev) (education prev) (skills prev) (summary prev).

(** The [onChange] of the summary text area. *)
Definition setSummary (value : jsstring) (prev : ResumeData) : ResumeData :=
  mkResumeData (contactInfo prev) (workExperience prev) (education prev)
    (skills prev) value.

(** ** Completion *)

Definition getCompletionPercentage (resumeData : ResumeData) : float :=
  let contact := contactInfo resumeData in
  let completed := 0 in
  let total := STEPS_length in
  let completed :=
    if truthy (ContactInfo.firstName contact) && truthy (ContactInfo.lastName contact)
       && truthy (ContactInfo.email contact) && truthy (ContactInfo.phone contact)
    then completed + 1 else completed in
  let completed :=
    if (0 <? length (workExperience resumeData))%nat then completed + 1 else completed in
  let completed :=
    if (0 <? length (education resumeData))%nat then completed + 1 else completed in
  let completed :=
    if (0 <? length (skills resumeData))%nat then completed + 1 else completed in
  let completed :=
    if truthy (trim (summary resumeData)) then completed + 1 else completed in
  Math_round (Number completed / Number total * 100)%float.

(** ** Intents

    What the rendered page can ask of the component, one event at a time. *)

Inductive Mutation : Type :=
| SetContactField (field : ContactInfo.key) (value : jsstring)
| AddWorkExperience (now : Z)
| RemoveWorkExperience (id : jsstring)
| UpdateWorkExperience (id : jsstring) (field : WorkExperience.key)
    (value : WorkExperience.value field)
| AddEducation (now : Z)
| RemoveEducation (id : jsstring)
| UpdateEducation (id : jsstring) (field : Education.key) (value : jsstring)
| AddSkill (now : Z)
| RemoveSkill (id : jsstring)
| UpdateSkill (id : jsstring) (field : Skill.key) (value : Skill.value field)
| SetSummary (value : jsstring).

Definition mutate (m : Mutation) : ResumeData -> ResumeData :=
  match m with
  | SetContactField field value => setContactField field value
  | AddWorkExperience now => addWorkExperience now
  | RemoveWorkExperience id => removeWorkExperience id
  | UpdateWorkExperience id field value => updateWorkExperience id field value
  | AddEducation now => addEducation now
  | RemoveEducation id => removeEducation id
  | UpdateEducation id field value => updateEducation id field value
  | AddSkill now => addSkill now
  | RemoveSkill id => removeSkill id
  | UpdateSkill id field value => updateSkill id field value
  | SetSummary value => setSummary value
  end.

Inductive Intent : Type :=
| Next
| Previous
| JumpTo (index : Z)
| Mutate (m : Mutation)
| Preview (on : bool).

Definition handle (i : Intent) (st : State) : State :=
  match i with
  | Next => nextStep st
  | Previous => prevStep st
  | JumpTo index => jumpTo index st
  | Mutate m => setResumeData (mutate m) st
  | Preview on => setShowPreview on st
  end.

Definition run (intents : list Intent) (st : State) : State :=
  foldl (λ st i, handle i st) st intents.

(** The sidebar has one button per entry of [STEPS]. *)
Definition rendered (i : Intent) : Prop :=
  match i with
  | JumpTo index => 0 <= index < STEPS_length
  | _ => True
  end.

(** ** Vocabulary of the specification *)

(** A non-empty run of non-space characters. *)
Definition nonSpaces (u : jsstring) : Prop :=
  u ≠ [] ∧ Forall (λ c, isWhiteSpace c = false) u.

(** The shape [<non-space>@<non-space>.<non-space>], somewhere in [s]. *)
Definition emailShape (s : jsstring) : Prop :=
  ∃ pre u v w post,
    s = pre ++ u ++ 64%N :: v ++ 46%N :: w ++ post
    ∧ nonSpaces u ∧ nonSpaces v ∧ nonSpaces w.

(** The shape [<non-space>@<non-space>.<non-space>] as the shape of the
    address itself, from its first character to its last: the reading of the
    specification's words that [validateStep] is compared with. *)
Definition emailShapeWhole (s : jsstring) : Prop :=
  ∃ u v w,
    s = u ++ 64%N :: v ++ 46%N :: w
    ∧ nonSpaces u ∧ nonSpaces v ∧ nonSpaces w.

(** Blank text: nothing but white space. *)
Definition blank (s : jsstring) : Prop := Forall (λ c, isWhiteSpace c = true) s.

(** The condition under which [getCompletionPercentage] counts step [k]
    (the same conditions mark a step completed in the sidebar). *)
Definition stepCompleted (k : Z) (resumeData : ResumeData) : bool :=
  let contact := contactInfo resumeData in
  match k with
  | 0 => truthy (ContactInfo.firstName contact) && truthy (ContactInfo.lastName contact)
         && truthy (ContactInfo.email contact) && truthy (ContactInfo.phone contact)
  | 1 => (0 <? length (workExperience resumeData))%nat
  | 2 => (0 <? length (education resumeData))%nat
  | 3 => (0 <? length (skills resumeData))%nat
  | 4 => truthy (trim (summary resumeData))
  | _ => false
  end.

Definition satisfiedCount (d : ResumeData) : Z :=
  Z.of_nat (length (filter (λ k, stepCompleted k d) (seqZ 0 5))).

(** Rounding to the nearest integer, halves upwards. *)
Definition round (q : Q) : Z := Qfloor (q + (1 # 2))%Q.

(** [round(100 × satisfiedCount / 5)] *)
Definition completionPercentage (d : ResumeData) : Z :=
  round (100 * inject_Z (satisfiedCount d) / 5)%Q.

(** The contact fields marked required. *)
Definition required (f : ContactInfo.key) : Prop :=
  f = ContactInfo.FirstName ∨ f = ContactInfo.LastName
  ∨ f = ContactInfo.Email ∨ f = ContactInfo.Phone.

(** One mutation that fills something missing. *)
Inductive fills : ResumeData -> ResumeData -> Prop :=
| fills_contact d f v :
    required f -> ContactInfo.get f (contactInfo d) = [] -> v ≠ [] ->
    fills d (setContactField f v d)
| fills_workExperience d now :
    workExperience d = [] -> fills d (addWorkExperience now d)
| fills_education d now :
    education d = [] -> fills d (addEducation now d)
| fills_skills d now :
    skills d = [] -> fills d (addSkill now d)
| fills_summary d text :
    ¬ blank text -> fills d (setSummary text d).

(** [l'] is [l] without its items of the given id: nothing else went,
    nothing came, nothing moved. *)
Definition removedById {A} (getId : A -> jsstring) (id : jsstring)
    (l l' : list A) : Prop :=
  sublist l' l
  ∧ (∀ x, x ∈ l' ↔ x ∈ l ∧ getId x ≠ id)
  ∧ length l = (length l' + length (filter (λ x, getId x = id) l))%nat.

(** A contact whose e-mail address has no [@]. *)
Definition contactWithBadEmail : ResumeData :=
  mkResumeData
    (ContactInfo.mk (js "Ada") (js "Lovelace") (js "not-an-email") (js "555-0100")
       [] [] [] [])
    [] [] [] [].

(** A contact whose e-mail field holds a sentence around an address. *)
Definition contactInSentence : ResumeData :=
  mkResumeData
    (ContactInfo.mk (js "Ada") (js "Lovelace") (js "write to a@b.c please")
       (js "555-0100") [] [] [] [])
    [] [] [] [].

(** A position with an end date. *)
Definition pastPosition : WorkExperience.t :=
  WorkExperience.mk (js "1700000000001") (js "Analytical Engines") (js "Programmer")
    (js "1842-01") (js "1843-12") false [].

(** An aggregate with every step completed. *)
Definition completeResume : ResumeData :=
  mkResumeData
    (ContactInfo.mk (js "Ada") (js "Lovelace") (js "ada@example.org") (js "555-0100")
       [] [] [] [])
    [ pastPosition ]
    [ Education.mk (js "1700000000002") [] [] [] [] (Some []) ]
    [ Skill.mk (js "1700000000003") (js "Mathematics") Skill.Expert ]
    (js "  First programmer. ").

(** A session: a blocked step forward, the contact form filled in, two
    steps forward, a jump to the last step and a step back. *)
Definition sampleSession : list Intent :=
  [ Next;
    Mutate (SetContactField ContactInfo.FirstName (js "Ada"));
    Mutate (SetContactField ContactInfo.LastName (js "Lovelace"));
    Mutate (SetContactField ContactInfo.Email (js "ada@example.org"));
    Mutate (SetContactField ContactInfo.Phone (js "555-0100"));
    Next;
    Mutate (AddWorkExperience 1700000000001);
    Next;
    JumpTo 4;
    Next;
    Previous ].

(** Case analysis on a count of steps. *)
Ltac count_cases c H :=
  assert (c = 0 ∨ c = 1 ∨ c = 2 ∨ c = 3 ∨ c = 4 ∨ c = 5)
    as [-> | [-> | [-> | [-> | [-> | ->]]]]] by lia; clear H.

(** ** The page

    What the component renders in a state: the sidebar, the content of the
    current step, the navigation buttons, or the preview; and what each
    control does when used. *)

(** The renderer [renderStepContent] picks; [None] is its [null]. *)
Inductive StepView : Type :=
| ContactView | ExperienceView | EducationView | SkillsView | SummaryView.

Definition renderStepContent (currentStep : Z) : option StepView :=
  match currentStep with
  | 0 => Some ContactView
  | 1 => Some ExperienceView
  | 2 => Some EducationView
  | 3 => Some SkillsView
  | 4 => Some SummaryView
  | _ => None
  end.

(** [STEPS[currentStep].title]; [None] where the read of [title] throws. *)
Definition stepTitle (currentStep : Z) : option string :=
  if currentStep <? 0 then None
  else snd <$> STEPS !! Z.to_nat currentStep.

(** Sidebar, for the button of step [index]. *)
Definition isActive (index : Z) (st : State) : bool :=
  currentStep st =? index.

Definition isCompleted (index : Z) (st : State) : bool :=
  let d := resumeData st in
  let contact := contactInfo d in
  (index <? currentStep st)
  || ((index =? 0) && truthy (ContactInfo.firstName contact)
      && truthy (ContactInfo.lastName contact) && truthy (ContactInfo.email contact)
      && truthy (ContactInfo.phone contact))
  || ((index =? 1) && (0 <? length (workExperience d))%nat)
  || ((index =? 2) && (0 <? length (education d))%nat)
  || ((index =? 3) && (0 <? length (skills d))%nat)
  || ((index =? 4) && truthy (trim (summary d))).

(** The caption under the title of a step. *)
Definition stepCaption (index : Z) (st : State) : string :=
  if isCompleted index st then "Completed"
  else if isActive index st then "In Progress"
  else "Pending".

(** [Progress]: the width of the bar, in percent. *)
Definition Progress_width (value : float) (max : float) : float :=
  (value / max * 100)%float.

(** The bar of the page: [max] is left to its default. *)
Definition progressBarWidth (d : ResumeData) : float :=
  Progress_width (getCompletionPercentage d) 100.

(** Preview: the line with the dates of a position, the three text nodes
    [{exp.startDate} - {exp.current ? 'Present' : exp.endDate}] in a row. *)
Definition periodText (exp : WorkExperience.t) : jsstring :=
  WorkExperience.startDate exp ++ js " - "
  ++ (if WorkExperience.current exp then js "Present" else WorkExperience.endDate exp).

(** Preview: the headings of the sections shown, top down. *)
Definition previewSections (d : ResumeData) : list string :=
  (if truthy (summary d) then ["Professional Summary"] else [])
  ++ (if (0 <? length (workExperience d))%nat then ["Work Experience"] else [])
  ++ (if (0 <? length (education d))%nat then ["Education"] else [])
  ++ (if (0 <? length (skills d))%nat then ["Skills"] else []).

(** The events of the page.  An item of a collection is addressed by the
    card it is rendered in; the handler receives the id of that item. *)
Inductive UIEvent : Type :=
| ClickNext
| ClickPrevious
| ClickStep (index : nat)
| ClickPreview
| ClickBackToEditor
| ClickDownload
| InputContact (field : ContactInfo.key) (value : jsstring)
| ClickAddExperience (now : Z)
| ClickRemoveExperience (card : nat)
| InputExperience (card : nat) (field : WorkExperience.key)
    (value : WorkExperience.value field)
| ClickAddEducation (now : Z)
| ClickRemoveEducation (card : nat)
| InputEducation (card : nat) (field : Education.key) (value : jsstring)
| ClickAddSkill (now : Z)
| ClickRemoveSkill (card : nat)
| InputSkill (card : nat) (field : Skill.key) (value : Skill.value field)
| InputSummary (value : jsstring).

(** The inputs of a card: every field but the id; the end date is disabled
    while [current] is ticked. *)
Definition experienceInput (field : WorkExperience.key) (exp : WorkExperience.t) : bool :=
  match field with
  | WorkExperience.Id => false
  | WorkExperience.EndDate => negb (WorkExperience.current exp)
  | _ => true
  end.

Definition educationInput (field : Education.key) : bool :=
  match field with
  | Education.Id => false
  | _ => true
  end.

Definition skillInput (field : Skill.key) : bool :=
  match field with
  | Skill.Id => false
  | _ => true
  end.

(** The events of the content of the current step. *)
Definition fireContent (view : StepView) (ev : UIEvent) (st : State) : option State :=
  let d := resumeData st in
  match view, ev with
  | ContactView, InputContact field value =>
      Some (setResumeData (setContactField field value) st)
  | ExperienceView, ClickAddExperience now =>
      Some (setResumeData (addWorkExperience now) st)
  | ExperienceView, ClickRemoveExperience card =>
      exp ← workExperience d !! card;
      Some (setResumeData (removeWorkExperience (WorkExperience.id exp)) st)
  | ExperienceView, InputExperience card field value =>
      exp ← workExperience d !! card;
      if experienceInput field exp
      then Some (setResumeData (updateWorkExperience (WorkExperience.id exp) field value) st)
      else None
  | EducationView, ClickAddEducation now =>
      Some (setResumeData (addEducation now) st)
  | EducationView, ClickRemoveEducation card =>
      edu ← education d !! card;
      Some (setResumeData (removeEducation (Education.id edu)) st)
  | EducationView, InputEducation card field value =>
      edu ← education d !! card;
      if educationInput field
      then Some (setResumeData (updateEducation (Education.id edu) field value) st)
      else None
  | SkillsView, ClickAddSkill now =>
      Some (setResumeData (addSkill now) st)
  | SkillsView, ClickRemoveSkill card =>
      skill ← skills d !! card;
      Some (setResumeData (removeSkill (Skill.id skill)) st)
  | SkillsView, InputSkill card field value =>
      skill ← skills d !! card;
      if skillInput field
      then Some (setResumeData (updateSkill (Skill.id skill) field value) st)
      else None
  | SummaryView, InputSummary value =>
      Some (setResumeData (setSummary value) st)
  | _, _ => None
  end.

(** The state after an event, [None] when the page in state [st] has no
    enabled control for it.  The download is an alert and changes nothing.

    The cards of a collection are rendered with [key={exp.id}] (and
    [key={edu.id}], [key={skill.id}]), and React asks for keys that differ
    among siblings.  [fire] describes the page on which they have differed so
    far: every card on the screen is then the card of an item of the current
    step.  Once two items of one collection have shared an id what React
    keeps on the screen is not determined by [State], and [fire] is the page
    that renders the items of [State] and nothing else.  The properties that
    rest on the cards of the other steps being absent from the screen assume
    [distinctReadings] (below) of the session so far. *)
Definition fire (ev : UIEvent) (st : State) : option State :=
  if showPreview st then
    match ev with
    | ClickBackToEditor => Some (setShowPreview false st)
    | ClickDownload => Some st
    | _ => None
    end
  else
    match ev with
    | ClickPreview => Some (setShowPreview true st)
    | ClickStep index =>
        if (index <? length STEPS)%nat then Some (jumpTo (Z.of_nat index) st) else None
    | ClickPrevious =>
        if currentStep st =? 0 then None else Some (prevStep st)
    | ClickNext =>
        if currentStep st =? STEPS_length - 1 then None else Some (nextStep st)
    | ClickBackToEditor | ClickDownload => None
    | _ => view ← renderStepContent (currentStep st); fireContent view ev st
    end.

(** A session: the events of a list, one after the other. *)
Fixpoint session (evs : list UIEvent) (st : State) : option State :=
  match evs with
  | [] => Some st
  | ev :: evs' => st' ← fire ev st; session evs' st'
  end.

(** The clock readings of the additions to each collection, in order. *)
Definition experienceReadings (evs : list UIEvent) : list Z :=
  omap (λ ev, match ev with ClickAddExperience now => Some now | _ => None end) evs.

Definition educationReadings (evs : list UIEvent) : list Z :=
  omap (λ ev, match ev with ClickAddEducation now => Some now | _ => None end) evs.

Definition skillReadings (evs : list UIEvent) : list Z :=
  omap (λ ev, match ev with ClickAddSkill now => Some now | _ => None end) evs.

(** The clock gave a different reading to each addition to a collection: by
    [addWorkExperience], [addEducation] and [addSkill] the items of a
    collection then never share an id, and the cards never share a key. *)
Definition distinctReadings (evs : list UIEvent) : Prop :=
  NoDup (experienceReadings evs) ∧ NoDup (educationReadings evs)
  ∧ NoDup (skillReadings evs).

Definition isClickStep (ev : UIEvent) : bool :=
  match ev with ClickStep _ => true | _ => false end.

Definition isClickNext (ev : UIEvent) : bool :=
  match ev with ClickNext => true | _ => false end.

(** A session on the empty form that walks to the last step. *)
Definition sampleClicks : list UIEvent :=
  [ ClickNext;
    InputContact ContactInfo.FirstName (js "Ada");
    InputContact ContactInfo.LastName (js "Lovelace");
    InputContact ContactInfo.Email (js "ada@example.org");
    InputContact ContactInfo.Phone (js "555-0100");
    ClickNext;
    ClickAddExperience 1700000000001;
    ClickAddExperience 1700000000002;
    InputExperience 0 WorkExperience.Current true;
    ClickRemoveExperience 1;
    ClickNext;
    ClickAddEducation 1700000000003;
    ClickNext;
    ClickAddSkill 1700000000004;
    InputSkill 0 Skill.TheLevel Skill.Expert;
    ClickNext;
    InputSummary (js "First programmer.");
    ClickPreview;
    ClickDownload;
    ClickBackToEditor;
    ClickPrevious ].

(** Every step before the current one validates. *)
Definition gated (st : State) : Prop :=
  0 <= currentStep st <= 4
  ∧ ∀ j, 0 <= j < currentStep st -> newErrors j (resumeData st) = ∅.

(** The ids of the items of each collection, in order. *)
Definition experienceIds (st : State) : list jsstring :=
  WorkExperience.id <$> workExperience (resumeData st).

Definition educationIds (st : State) : list jsstring :=
  Education.id <$> education (resumeData st).

Definition skillIds (st : State) : list jsstring :=
  Skill.id <$> skills (resumeData st).

(** The fields of an education entry and of a skill, read by key. *)
Definition Education_value (k : Education.key) : Type :=
  match k with
  | Education.Gpa => option jsstring
  | _ => jsstring
  end.

Definition Education_get (k : Education.key) (e : Education.t) : Education_value k :=
  match k with
  | Education.Id => Education.id e
  | Education.Institution => Education.institution e
  | Education.Degree => Education.degree e
  | Education.Field => Education.field e
  | Education.GraduationDate => Education.graduationDate e
  | Education.Gpa => Education.gpa e
  end.

(** What a write of [v] leaves in the field [k]. *)
Definition Education_written (k : Education.key) (v : jsstring) : Education_value k :=
  match k with
  | Education.Gpa => Some v
  | _ => v
  end.

Definition Skill_get (k : Skill.key) (s : Skill.t) : Skill.value k :=
  match k with
  | Skill.Id => Skill.id s
  | Skill.Name => Skill.name s
  | Skill.TheLevel => Skill.level s
  end.

(** ** The save indicator

    [autoSave], the effect that runs it and the timers they set, on a
    virtual clock in milliseconds: a callback runs at the time it is due,
    the earliest first and, among those due together, the one set first. *)

Inductive SaveStatus : Type := Idle | Saving | Saved | SaveError.

(** The three functions handed to [setTimeout], outermost first. *)
Inductive Callback : Type := StartSaving | FinishSaving | BackToIdle.

Record Timer : Type := mkTimer {
  timeoutId : N;
  due : Z;
  callback : Callback
}.

Record Saver : Type := mkSaver {
  saveStatus : SaveStatus;
  saveTimeoutRef : option N;
  timers : list Timer;
  nextHandle : N
}.

(** Timeout ids count from 1, so that an id is truthy. *)
Definition initialSaver : Saver := mkSaver Idle None [] 1.

Definition setSaveStatus (s : SaveStatus) (sv : Saver) : Saver :=
  mkSaver s (saveTimeoutRef sv) (timers sv) (nextHandle sv).

Definition setTimeout (cb : Callback) (delay now : Z) (sv : Saver) : N * Saver :=
  (nextHandle sv,
   mkSaver (saveStatus sv) (saveTimeoutRef sv)
     (timers sv ++ [mkTimer (nextHandle sv) (now + delay) cb])
     (N.succ (nextHandle sv))).

Definition clearTimeout (h : N) (sv : Saver) : Saver :=
  mkSaver (saveStatus sv) (saveTimeoutRef sv)
    (filter (λ tm, timeoutId tm ≠ h) (timers sv)) (nextHandle sv).

(** [if (saveTimeoutRef.current) clearTimeout(saveTimeoutRef.current)] *)
Definition clearPending (sv : Saver) : Saver :=
  match saveTimeoutRef sv with
  | Some h => clearTimeout h sv
  | None => sv
  end.

Definition autoSave (now : Z) (sv : Saver) : Saver :=
  let sv := clearPending sv in
  let '(h, sv) := setTimeout StartSaving 1000 now sv in
  mkSaver (saveStatus sv) (Some h) (timers sv) (nextHandle sv).

(** The effect on [resumeData]: the cleanup of its last run, then
    [autoSave]; at the mount there is no cleanup yet. *)
Definition onMount (now : Z) : Saver := autoSave now initialSaver.

Definition onResumeDataChange (now : Z) (sv : Saver) : Saver :=
  autoSave now (clearPending sv).

(** A callback runs, at time [now]. *)
Definition runCallback (now : Z) (cb : Callback) (sv : Saver) : Saver :=
  match cb with
  | StartSaving => (setTimeout FinishSaving 1000 now (setSaveStatus Saving sv)).2
  | FinishSaving => (setTimeout BackToIdle 2000 now (setSaveStatus Saved sv)).2
  | BackToIdle => setSaveStatus Idle sv
  end.

(** The timer to run next. *)
Fixpoint earliest (ts : list Timer) : option Timer :=
  match ts with
  | [] => None
  | tm :: ts' =>
      match earliest ts' with
      | Some tm' => if due tm' <? due tm then Some tm' else Some tm
      | None => Some tm
      end
  end.

(** The clock advances to [t]: the timers due by then run in turn. *)
Fixpoint elapseN (fuel : nat) (t : Z) (sv : Saver) : Saver :=
  match fuel with
  | O => sv
  | S fuel' =>
      match earliest (timers sv) with
      | Some tm =>
          if due tm <=? t
          then elapseN fuel' t
                 (runCallback (due tm) (callback tm) (clearTimeout (timeoutId tm) sv))
          else sv
      | None => sv
      end
  end.

(** The callbacks a timer still stands for: itself and those it sets. *)
Definition chain (cb : Callback) : nat :=
  match cb with
  | StartSaving => 3
  | FinishSaving => 2
  | BackToIdle => 1
  end.

Definition pendingWork (ts : list Timer) : nat :=
  foldr (λ tm n, chain (callback tm) + n)%nat 0%nat ts.

Definition elapse (t : Z) (sv : Saver) : Saver :=
  elapseN (pendingWork (timers sv)) t sv.

(** The page over time: the data changes at a time, or time just passes. *)
Inductive SaveEvent : Type :=
| DataChanges (t : Z)
| TimePasses (t : Z).

Definition saveStep (sv : Saver) (ev : SaveEvent) : Saver :=
  match ev with
  | DataChanges t => onResumeDataChange t (elapse t sv)
  | TimePasses t => elapse t sv
  end.

Definition saveRun (evs : list SaveEvent) (sv : Saver) : Saver :=
  foldl saveStep sv evs.

(** Changes in a row, each less than a second after the one before. *)
Fixpoint rapid (t : Z) (ts : list Z) : Prop :=
  match ts with
  | [] => True
  | t' :: ts' => t <= t' < t + 1000 ∧ rapid t' ts'
  end.

#[global] Instance Callback_eq_dec : EqDecision Callback.
Proof. solve_decision. Defined.

(** What the timers of the page keep true: ids are fresh and distinct, and
    a pending first timer of a save is the one the ref holds. *)
Definition saverOk (sv : Saver) : Prop :=
  saveStatus sv ≠ SaveError
  ∧ (∀ tm, tm ∈ timers sv -> (timeoutId tm < nextHandle sv)%N)
  ∧ NoDup (timeoutId <$> timers sv)
  ∧ (∀ tm, tm ∈ timers sv -> callback tm = StartSaving ->
           saveTimeoutRef sv = Some (timeoutId tm)).

(** The completed aggregate, open on the skills. *)
Definition onSkills : State := mkState 3 completeResume ∅ false.

(** Two skills added within one millisecond, open on the skills. *)
Definition twinSkills : State :=
  mkState 3 (addSkill 1700000000000 (addSkill 1700000000000 initialResumeData))
    ∅ false.

(** The contact form filled in, nothing else. *)
Definition contactEdits : list UIEvent :=
  [ InputContact ContactInfo.FirstName (js "Ada");
    InputContact ContactInfo.LastName (js "Lovelace");
    InputContact ContactInfo.Email (js "ada@example.org");
    InputContact ContactInfo.Phone (js "555-0100") ].

(** * Properties *)

(** ** Strings *)

Lemma truthy_true (s : jsstring) : truthy s = true ↔ s ≠ [].
Proof. by destruct s. Qed.

Lemma truthy_false (s : jsstring) : truthy s = false ↔ s = [].
Proof. by destruct s. Qed.

Lemma nonSpace_true c : nonSpace c = true ↔ isWhiteSpace c = false.
Proof. unfold nonSpace. by destruct (isWhiteSpace c). Qed.

Lemma trimStart_head (s : jsstring) :
  trimStart s = [] ∨ ∃ c t, trimStart s = c :: t ∧ isWhiteSpace c = false.
Proof.
  induction s as [|c s IH]; simpl; [by left|].
  destruct (isWhiteSpace c) eqn:Hc; [done|].
  right. by exists c, s.
Qed.

Lemma trimStart_nil (s : jsstring) : trimStart s = [] ↔ blank s.
Proof.
  unfold blank. induction s as [|c s IH]; simpl.
  - split; [constructor | done].
  - destruct (isWhiteSpace c) eqn:Hc.
    + rewrite IH. split; [by constructor | by inversion 1].
    + split; [done | inversion 1; congruence].
Qed.

Lemma trim_nil (s : jsstring) : trim s = [] ↔ blank s.
Proof.
  unfold trim, trimEnd. rewrite <- trimStart_nil. split.
  - intros H. apply (f_equal reverse) in H. rewrite reverse_involutive in H.
    change (reverse []) with (@nil N) in H.
    apply trimStart_nil in H. unfold blank in H.
    destruct (trimStart_head s) as [|(c & t & Hs & Hc)]; [done|].
    rewrite Hs, reverse_cons, Forall_app, Forall_singleton in H.
    destruct H; congruence.
  - by intros ->.
Qed.

Lemma truthy_trim (s : jsstring) : truthy (trim s) = true ↔ ¬ blank s.
Proof. by rewrite truthy_true, trim_nil. Qed.

(** ** Regular expressions: the matcher decides the language *)

Module RegExpFacts.
Import RegExp.

Create HintDb regex.
#[local] Hint Constructors lang : regex.

Lemma lang_cat_inv r1 r2 s :
  lang (Cat r1 r2) s ↔ ∃ s1 s2, s = s1 ++ s2 ∧ lang r1 s1 ∧ lang r2 s2.
Proof.
  split.
  - inversion 1; subst; eauto.
  - intros (s1 & s2 & -> & H1 & H2); auto with regex.
Qed.

Lemma nullable_lang r : nullable r = true ↔ lang r [].
Proof.
  split.
  - induction r; simpl; intros H; try done; auto with regex.
    + apply andb_prop in H as [H1 H2].
      change (@nil N) with (@nil N ++ []). auto with regex.
    + apply orb_prop in H as [H|H]; auto with regex.
  - remember [] as s eqn:Hs. induction 1; simpl; try done.
    + apply app_eq_nil in Hs as [-> ->]. by rewrite IHlang1, IHlang2.
    + by rewrite IHlang.
    + rewrite IHlang by done. apply orb_true_r.
Qed.

Lemma deriv_sound c r s : lang (deriv c r) s -> lang r (c :: s).
Proof.
  revert s. induction r; simpl; intros s H.
  - inversion H.
  - inversion H.
  - destruct (p c) eqn:Hp; inversion H; subst. auto with regex.
  - assert (Hcat : ∀ s, lang (Cat (deriv c r1) r2) s -> lang (Cat r1 r2) (c :: s)).
    { intros s' (s1 & s2 & -> & H1 & H2)%lang_cat_inv.
      change (c :: s1 ++ s2) with ((c :: s1) ++ s2). auto with regex. }
    destruct (nullable r1) eqn:Hn; [|auto].
    inversion H; subst; [auto|].
    change (c :: s) with ([] ++ c :: s).
    apply lang_cat; [by apply nullable_lang | auto].
  - inversion H; subst; auto with regex.
  - apply lang_cat_inv in H as (s1 & s2 & -> & H1 & H2).
    change (c :: s1 ++ s2) with ((c :: s1) ++ s2). auto with regex.
Qed.

Lemma deriv_complete c r s : lang r (c :: s) -> lang (deriv c r) s.
Proof.
  intros H. remember (c :: s) as w eqn:Hw. revert s Hw.
  induction H as [|p c' Hp|r1 r2 s1 s2 H1 IH1 H2 IH2|r1 r2 w H IH|r1 r2 w H IH
                 |r|r s1 s2 H1 IH1 H2 IH2]; intros s Hw; simpl.
  - done.
  - injection Hw as -> <-. rewrite Hp. auto with regex.
  - destruct s1 as [|c1 s1]; simpl in Hw.
    + subst s2. apply nullable_lang in H1 as ->. auto with regex.
    + injection Hw as -> <-.
      destruct (nullable r1); auto with regex.
  - auto with regex.
  - auto with regex.
  - done.
  - destruct s1 as [|c1 s1]; simpl in Hw.
    + auto.
    + injection Hw as -> <-. auto with regex.
Qed.

Lemma matchAt_nil r : matchAt r [] = nullable r.
Proof. simpl. apply orb_false_r. Qed.

Lemma matchAt_cons r c s :
  matchAt r (c :: s) = nullable r || matchAt (deriv c r) s.
Proof. reflexivity. Qed.

Lemma test_nil r : test r [] = matchAt r [].
Proof. simpl. apply orb_false_r. Qed.

Lemma test_cons r c s : test r (c :: s) = matchAt r (c :: s) || test r s.
Proof. reflexivity. Qed.

Lemma matchAt_spec r s :
  matchAt r s = true ↔ ∃ m post, s = m ++ post ∧ lang r m.
Proof.
  revert r. induction s as [|c s IH]; intros r.
  - rewrite matchAt_nil, nullable_lang. split.
    + intros H. by exists [], [].
    + intros (m & post & Hs & H). symmetry in Hs.
      by apply app_eq_nil in Hs as [-> _].
  - rewrite matchAt_cons, orb_true_iff, nullable_lang, IH. split.
    + intros [H|(m & post & -> & H)].
      * by exists [], (c :: s).
      * exists (c :: m), post. split; [done|]. by apply deriv_sound.
    + intros ([|c' m] & post & Hs & H); [by left|].
      injection Hs as <- ->. right. exists m, post.
      split; [done|]. by apply deriv_complete.
Qed.

(** [test] finds a match wherever there is one. *)
Lemma test_spec r s :
  test r s = true ↔ ∃ pre m post, s = pre ++ m ++ post ∧ lang r m.
Proof.
  induction s as [|c s IH].
  - rewrite test_nil, matchAt_spec. split.
    + intros (m & post & Hs & H). by exists [], m, post.
    + intros (pre & m & post & Hs & H). symmetry in Hs.
      apply app_eq_nil in Hs as [-> Hs]. eauto.
  - rewrite test_cons, orb_true_iff, matchAt_spec, IH. split.
    + intros [(m & post & Hs & H)|(pre & m & post & -> & H)].
      * exists [], m, post. auto.
      * by exists (c :: pre), m, post.
    + intros ([|c' pre] & m & post & Hs & H).
      * left. by exists m, post.
      * injection Hs as <- ->. right. by exists pre, m, post.
Qed.

Lemma lang_chr c s : lang (Chr c) s ↔ s = [c].
Proof.
  unfold Chr. split.
  - inversion 1; subst. f_equal. symmetry. by apply N.eqb_eq.
  - intros ->. constructor. apply N.eqb_refl.
Qed.

Lemma lang_star_cls p s :
  lang (Star (Cls p)) s ↔ Forall (λ c, p c = true) s.
Proof.
  split.
  - remember (Star (Cls p)) as r eqn:Hr. induction 1; try done.
    injection Hr as ->. inversion H; subst. constructor; auto.
  - induction 1 as [|c s Hc _ IH]; [auto with regex|].
    change (c :: s) with ([c] ++ s). auto with regex.
Qed.

Lemma lang_plus_cls p s :
  lang (Plus (Cls p)) s ↔ s ≠ [] ∧ Forall (λ c, p c = true) s.
Proof.
  unfold Plus. rewrite lang_cat_inv. split.
  - intros (s1 & s2 & -> & H1 & H2). inversion H1; subst.
    apply lang_star_cls in H2. split; [done|]. by constructor.
  - intros [Hne H]. destruct H as [|c s Hc H]; [done|].
    exists [c], s. rewrite lang_star_cls. auto with regex.
Qed.

Lemma lang_nonSpaces u : lang (Plus (Cls nonSpace)) u ↔ nonSpaces u.
Proof.
  rewrite lang_plus_cls. unfold nonSpaces.
  by setoid_rewrite nonSpace_true.
Qed.

Lemma lang_EMAIL_RE m :
  lang EMAIL_RE m ↔
  ∃ u v w, m = u ++ 64%N :: v ++ 46%N :: w
           ∧ nonSpaces u ∧ nonSpaces v ∧ nonSpaces w.
Proof.
  unfold EMAIL_RE. split.
  - intros (u & m1 & -> & Hu & H)%lang_cat_inv.
    apply lang_cat_inv in H as (a & m2 & -> & ->%lang_chr & H).
    apply lang_cat_inv in H as (v & m3 & -> & Hv & H).
    apply lang_cat_inv in H as (b & w & -> & ->%lang_chr & Hw).
    exists u, v, w. by rewrite <- !lang_nonSpaces.
  - intros (u & v & w & -> & Hu & Hv & Hw).
    apply lang_nonSpaces in Hu, Hv, Hw.
    apply lang_cat; [done|]. apply (lang_cat _ _ [64%N]); [by apply lang_chr|].
    apply lang_cat; [done|]. apply (lang_cat _ _ [46%N]); [by apply lang_chr|].
    done.
Qed.

End RegExpFacts.

(** The pattern of the source accepts exactly the strings of the shape. *)
Lemma test_EMAIL_RE (s : jsstring) :
  RegExp.test EMAIL_RE s = true ↔ emailShape s.
Proof.
  rewrite RegExpFacts.test_spec. unfold emailShape. split.
  - intros (pre & m & post & -> & (u & v & w & -> & H)%RegExpFacts.lang_EMAIL_RE).
    exists pre, u, v, w, post. split; [|done].
    by rewrite <- !app_assoc, <- !app_comm_cons, <- !app_assoc.
  - intros (pre & u & v & w & post & -> & H).
    exists pre, (u ++ 64%N :: v ++ 46%N :: w), post. split.
    + by rewrite <- !app_assoc, <- !app_comm_cons, <- !app_assoc.
    + apply RegExpFacts.lang_EMAIL_RE. by exists u, v, w.
Qed.

(** ** Validation *)

Lemma Object_keys_empty (e : ValidationErrors) :
  (length (Object_keys e) =? 0)%nat = true ↔ e = ∅.
Proof.
  unfold Object_keys. rewrite length_fmap, Nat.eqb_eq.
  rewrite <- map_to_list_empty_iff. by destruct (map_to_list e).
Qed.

Lemma validateStep_errors k st :
  errors (validateStep k st).1 = newErrors k (resumeData st).
Proof. reflexivity. Qed.

Lemma validateStep_valid k st :
  (validateStep k st).2 = true ↔ newErrors k (resumeData st) = ∅.
Proof. apply Object_keys_empty. Qed.

(** What [newErrors 0] holds under each key. *)
Lemma newErrors_contact_lookup (d : ResumeData) (k : string) :
  let c := contactInfo d in
  newErrors 0 d !! k =
    if decide (k = "firstName") then
      if truthy (ContactInfo.firstName c) then None else Some "First name is required"
    else if decide (k = "lastName") then
      if truthy (ContactInfo.lastName c) then None else Some "Last name is required"
    else if decide (k = "email") then
      if truthy (ContactInfo.email c)
      then if RegExp.test EMAIL_RE (ContactInfo.email c) then None
           else Some "Email is invalid"
      else Some "Email is required"
    else if decide (k = "phone") then
      if truthy (ContactInfo.phone c) then None else Some "Phone is required"
    else None.
Proof.
  intros c. unfold newErrors. fold c.
  destruct (truthy (ContactInfo.firstName c)), (truthy (ContactInfo.lastName c)),
    (truthy (ContactInfo.email c)), (RegExp.test EMAIL_RE (ContactInfo.email c)),
    (truthy (ContactInfo.phone c)); simpl;
    repeat case_decide; simplify_map_eq; done.
Qed.

(** An address that has the shape as a whole holds no white space. *)
Lemma emailShapeWhole_no_space (s : jsstring) :
  emailShapeWhole s -> Forall (λ c, isWhiteSpace c = false) s.
Proof.
  intros (u & v & w & -> & [_ Hu] & [_ Hv] & [_ Hw]).
  apply Forall_app. split; [exact Hu|].
  constructor; [reflexivity|].
  apply Forall_app. split; [exact Hv|].
  constructor; [reflexivity|exact Hw].
Qed.

(** An address that has the shape as a whole has it somewhere. *)
Lemma emailShapeWhole_emailShape (s : jsstring) :
  emailShapeWhole s -> emailShape s.
Proof.
  intros (u & v & w & -> & Hu & Hv & Hw).
  exists [], u, v, w, []. by rewrite app_nil_r.
Qed.

(** C4, as it stands, fails: the pattern of [validateStep] is not anchored.
    The e-mail field [write to a@b.c please] is not empty and has not, as a
    whole, the shape [<non-space>@<non-space>.<non-space>] (it holds spaces);
    [validateStep(0)] reports no error for it. *)
Lemma email_pattern_is_not_anchored :
  ¬ (∀ st : State,
       let c := contactInfo (resumeData st) in
       let e := errors (validateStep 0 st).1 in
       e !! "email" = Some "Email is invalid" ↔
         ContactInfo.email c ≠ [] ∧ ¬ emailShapeWhole (ContactInfo.email c)).
Proof.
  intros H.
  destruct (H (mkState 0 contactInSentence ∅ false)) as [_ He].
  cbv zeta in He.
  assert (Hno : errors (validateStep 0 (mkState 0 contactInSentence ∅ false)).1
                !! "email" = None) by (vm_compute; reflexivity).
  rewrite He in Hno; [discriminate|].
  split; [discriminate|].
  intros Hw%emailShapeWhole_no_space.
  rewrite Forall_forall in Hw.
  specialize (Hw 32%N). simpl in Hw.
  assert (Hin : 32%N ∈ js "write to a@b.c please")
    by (apply (bool_decide_unpack _); vm_compute; exact I).
  specialize (Hw Hin). vm_compute in Hw. discriminate.
Qed.

(** C4, amended: [validateStep(0)] reports a missing first name, last name,
    e-mail address and phone number under their keys, and nothing else, but
    for one case: an e-mail address that is present is reported as invalid
    exactly when no part of it has the shape
    [<non-space>@<non-space>.<non-space>]; text, white space included, may
    come before and after that part.  The outcome is a function of these four
    fields alone. *)
Theorem validateStep_contact (st : State) :
  let c := contactInfo (resumeData st) in
  let e := errors (validateStep 0 st).1 in
  ((e !! "firstName" = Some "First name is required" ↔ ContactInfo.firstName c = [])
   ∧ (e !! "firstName" = None ↔ ContactInfo.firstName c ≠ []))
  ∧ ((e !! "lastName" = Some "Last name is required" ↔ ContactInfo.lastName c = [])
     ∧ (e !! "lastName" = None ↔ ContactInfo.lastName c ≠ []))
  ∧ ((e !! "email" = Some "Email is required" ↔ ContactInfo.email c = [])
     ∧ (e !! "email" = Some "Email is invalid" ↔
          ContactInfo.email c ≠ [] ∧ ¬ emailShape (ContactInfo.email c))
     ∧ (e !! "email" = None ↔
          ContactInfo.email c ≠ [] ∧ emailShape (ContactInfo.email c)))
  ∧ ((e !! "phone" = Some "Phone is required" ↔ ContactInfo.phone c = [])
     ∧ (e !! "phone" = None ↔ ContactInfo.phone c ≠ []))
  ∧ (∀ k, k ∉ ["firstName"; "lastName"; "email"; "phone"] -> e !! k = None)
  ∧ (∀ st',
       let c' := contactInfo (resumeData st') in
       ContactInfo.firstName c' = ContactInfo.firstName c ->
       ContactInfo.lastName c' = ContactInfo.lastName c ->
       ContactInfo.email c' = ContactInfo.email c ->
       ContactInfo.phone c' = ContactInfo.phone c ->
       errors (validateStep 0 st').1 = e).
Proof.
  intros c e. subst e. rewrite validateStep_errors. fold c.
  pose proof (newErrors_contact_lookup (resumeData st)) as L.
  cbv zeta in L. fold c in L.
  split_and!.
  all: try (rewrite L; simpl).
  all: try match goal with
       | |- context [truthy ?s] =>
           destruct (truthy s) eqn:Ht;
           [apply truthy_true in Ht | apply truthy_false in Ht]
       end.
  all: try match goal with
       | |- context [RegExp.test EMAIL_RE ?s] =>
           destruct (RegExp.test EMAIL_RE s) eqn:Hre;
           [apply test_EMAIL_RE in Hre
           |apply not_true_iff_false in Hre; rewrite test_EMAIL_RE in Hre]
       end.
  all: try (intuition congruence).
  - intros k Hk. rewrite L.
    repeat case_decide; subst; try done; exfalso; apply Hk; set_solver.
  - intros st' c' H1 H2 H3 H4. rewrite validateStep_errors.
    apply map_eq. intros k.
    rewrite L, (newErrors_contact_lookup (resumeData st')).
    cbv zeta. fold c'. by rewrite H1, H2, H3, H4.
Qed.

(** C5: for the steps 1, 2 and 3, [validateStep] reports one error, under the
    key of the collection, when the collection is empty, and none for a
    collection with an item, whatever the items hold. *)
Theorem validateStep_collections (st : State) :
  let d := resumeData st in
  let e1 := errors (validateStep 1 st).1 in
  let e2 := errors (validateStep 2 st).1 in
  let e3 := errors (validateStep 3 st).1 in
  ((size e1 = 1%nat ↔ workExperience d = [])
   ∧ (workExperience d = [] ->
      e1 = {[ "workExperience" := "At least one work experience is required" ]})
   ∧ (workExperience d ≠ [] -> e1 = ∅))
  ∧ ((size e2 = 1%nat ↔ education d = [])
     ∧ (education d = [] ->
        e2 = {[ "education" := "At least one education entry is required" ]})
     ∧ (education d ≠ [] -> e2 = ∅))
  ∧ ((size e3 = 1%nat ↔ skills d = [])
     ∧ (skills d = [] ->
        e3 = {[ "skills" := "At least one skill is required" ]})
     ∧ (skills d ≠ [] -> e3 = ∅)).
Proof.
  intros d e1 e2 e3. subst e1 e2 e3. rewrite !validateStep_errors. fold d.
  unfold newErrors.
  destruct (workExperience d), (education d), (skills d); simpl;
    rewrite ?insert_empty, ?map_size_singleton, ?map_size_empty;
    repeat split; intros; congruence.
Qed.

(** ** Navigation *)

(** C1: [nextStep] validates the current step and stores the errors found;
    the step index grows by one exactly when there are none and the current
    step is before the last, and stays as it is otherwise. *)
Theorem nextStep_spec (st : State) :
  let e := newErrors (currentStep st) (resumeData st) in
  let st' := nextStep st in
  validateStep (currentStep st) st = (setErrors e st, bool_decide (e = ∅))
  ∧ errors st' = e
  ∧ resumeData st' = resumeData st
  ∧ showPreview st' = showPreview st
  ∧ (currentStep st' = currentStep st + 1 ↔ e = ∅ ∧ currentStep st < 4)
  ∧ (currentStep st' = currentStep st ↔ ¬ (e = ∅ ∧ currentStep st < 4)).
Proof.
  intros e st'. subst st'.
  assert (Hv : (validateStep (currentStep st) st).2 = bool_decide (e = ∅)).
  { apply eq_true_iff_eq. rewrite validateStep_valid, bool_decide_eq_true. done. }
  unfold nextStep. destruct (validateStep (currentStep st) st) as [st1 valid] eqn:Hvs.
  assert (Hst1 : st1 = setErrors e st) by (by injection Hvs).
  simpl in Hv. subst valid st1.
  change (STEPS_length - 1) with 4.
  split; [done|].
  destruct (bool_decide_reflect (e = ∅)) as [He|He];
    destruct (Z.ltb_spec (currentStep st) 4) as [Hlt|Hge]; simpl;
    repeat split; try done; try lia; try tauto; intros; try lia.
Qed.

Lemma nextStep_currentStep (st : State) :
  currentStep (nextStep st) =
    if (validateStep (currentStep st) st).2 && (currentStep st <? 4)
    then currentStep st + 1 else currentStep st.
Proof.
  unfold nextStep. change (STEPS_length - 1) with 4.
  destruct (validateStep (currentStep st) st) as [st1 valid] eqn:Hvs.
  injection Hvs as <- _. simpl.
  by destruct (valid && (currentStep st <? 4)).
Qed.

Lemma prevStep_currentStep (st : State) :
  currentStep (prevStep st) =
    if 0 <? currentStep st then currentStep st - 1 else currentStep st.
Proof. unfold prevStep. by destruct (0 <? currentStep st). Qed.

(** Every intent the page can raise keeps the step index on a step. *)
Lemma handle_in_range (i : Intent) (st : State) :
  rendered i ->
  0 <= currentStep st <= 4 ->
  0 <= currentStep (handle i st) <= 4.
Proof.
  intros Hi Hst. destruct i as [| |index|m|on]; simpl.
  - rewrite nextStep_currentStep.
    destruct (validateStep (currentStep st) st).2; simpl; [|lia].
    destruct (Z.ltb_spec (currentStep st) 4); lia.
  - rewrite prevStep_currentStep.
    destruct (Z.ltb_spec 0 (currentStep st)); lia.
  - simpl in Hi. change STEPS_length with 5 in Hi. lia.
  - done.
  - done.
Qed.

Lemma run_in_range (intents : list Intent) (st : State) :
  Forall rendered intents ->
  0 <= currentStep st <= 4 ->
  0 <= currentStep (run intents st) <= 4.
Proof.
  intros Hall. revert st.
  induction Hall as [|i intents Hi _ IH]; intros st Hst; [done|].
  apply IH. by apply handle_in_range.
Qed.

(** C7: from the initial state, whatever the page asks for, in whatever
    order, the step index stays between 0 and 4; going back from the first
    step and forward from the last leave it where it is. *)
Theorem currentStep_in_range :
  (∀ intents, Forall rendered intents ->
     0 <= currentStep (run intents initialState) <= 4)
  ∧ (∀ st, currentStep st = 0 -> currentStep (prevStep st) = 0)
  ∧ (∀ st, currentStep st = 4 -> currentStep (nextStep st) = 4).
Proof.
  split_and!.
  - intros intents H. by apply run_in_range.
  - intros st H. by rewrite prevStep_currentStep, H.
  - intros st H. rewrite nextStep_currentStep, H.
    by rewrite andb_false_r.
Qed.

(** C9: a click on a step of the sidebar moves to that step, whatever the
    state of the form; nothing is validated, and the data and the stored
    errors are kept.  On the empty form the Next button stays on step 0 and
    reports errors, while the sidebar reaches step 4 and reports none. *)
Theorem jumpTo_unconditional :
  (∀ index st,
     currentStep (jumpTo index st) = index
     ∧ resumeData (jumpTo index st) = resumeData st
     ∧ errors (jumpTo index st) = errors st
     ∧ showPreview (jumpTo index st) = showPreview st)
  ∧ currentStep (nextStep initialState) = 0
  ∧ errors (nextStep initialState) ≠ ∅
  ∧ currentStep (jumpTo 4 initialState) = 4
  ∧ errors (jumpTo 4 initialState) = ∅.
Proof.
  split_and!.
  - intros index st. by split_and!.
  - reflexivity.
  - intros He.
    assert (H : errors (nextStep initialState) !! "phone"%string = None)
      by (rewrite He; apply lookup_empty).
    vm_compute in H. discriminate.
  - reflexivity.
  - reflexivity.
Qed.

(** ** Handlers of the collections *)

Lemma ResumeData_eta (d : ResumeData) :
  mkResumeData (contactInfo d) (workExperience d) (education d) (skills d)
    (summary d) = d.
Proof. by destruct d. Qed.

Lemma WorkExperience_get_set_eq k v e :
  WorkExperience.get k (WorkExperience.set k v e) = v.
Proof. by destruct k. Qed.

Lemma WorkExperience_get_set_ne k k' v e :
  k' ≠ k ->
  WorkExperience.get k' (WorkExperience.set k v e) = WorkExperience.get k' e.
Proof. by destruct k, k'. Qed.

(** Mapping a conditional update over a list that never meets the condition. *)
Lemma fmap_unless {A} (P : A -> Prop) `{!∀ x, Decision (P x)} (f : A -> A)
    (l : list A) :
  (∀ x, x ∈ l -> ¬ P x) ->
  (λ x, if decide (P x) then f x else x) <$> l = l.
Proof.
  intros Hno. induction l as [|x l IH]; [done|]. simpl. f_equal.
  - case_decide; [|done]. exfalso. apply (Hno x); [left|done].
  - apply IH. intros y Hy. apply Hno. by right.
Qed.

(** C8: [updateWorkExperience] writes the named field of the items with the
    given id and touches nothing else: not their other fields, not the other
    items, not the rest of the aggregate; without an item of that id the
    aggregate is as before.  Ticking [current] keeps the end date. *)
Theorem updateWorkExperience_frame (id : jsstring) (d : ResumeData) :
  (∀ field value,
     let d' := updateWorkExperience id field value d in
     contactInfo d' = contactInfo d
     ∧ education d' = education d
     ∧ skills d' = skills d
     ∧ summary d' = summary d
     ∧ length (workExperience d') = length (workExperience d)
     ∧ (∀ i e, workExperience d !! i = Some e ->
          ∃ e', workExperience d' !! i = Some e'
                ∧ (WorkExperience.id e ≠ id -> e' = e)
                ∧ (WorkExperience.id e = id ->
                     WorkExperience.get field e' = value
                     ∧ ∀ k, k ≠ field ->
                         WorkExperience.get k e' = WorkExperience.get k e))
     ∧ ((∀ e, e ∈ workExperience d -> WorkExperience.id e ≠ id) -> d' = d))
  ∧ (∀ i e, workExperience d !! i = Some e ->
       ∃ e', workExperience
               (updateWorkExperience id WorkExperience.Current true d) !! i
             = Some e'
             ∧ WorkExperience.endDate e' = WorkExperience.endDate e).
Proof.
  split.
  - intros field value d'. subst d'. unfold updateWorkExperience. simpl.
    split_and!; try done.
    + apply length_fmap.
    + intros i e Hi. rewrite list_lookup_fmap, Hi. simpl.
      eexists. split; [done|]. case_decide; split; try done.
      intros _. split.
      * apply WorkExperience_get_set_eq.
      * intros k Hk. by apply WorkExperience_get_set_ne.
    + intros H. rewrite fmap_unless; [apply ResumeData_eta|].
      intros e He Heq. by apply (H e).
  - intros i e Hi. unfold updateWorkExperience. simpl.
    rewrite list_lookup_fmap, Hi. simpl.
    eexists. split; [done|]. by case_decide.
Qed.

Section Removal.
Context {A : Type} (getId : A -> jsstring).

Lemma filter_by_id_length (id : jsstring) (l : list A) :
  length l = (length (filter (λ x, getId x ≠ id) l)
              + length (filter (λ x, getId x = id) l))%nat.
Proof.
  induction l as [|x l IH]; [done|].
  rewrite !filter_cons. repeat case_decide; simpl; try done; lia.
Qed.

Lemma filter_by_id_absent (id : jsstring) (l : list A) :
  (∀ x, x ∈ l -> getId x ≠ id) -> filter (λ x, getId x ≠ id) l = l.
Proof.
  intros Hno. induction l as [|x l IH]; [done|].
  rewrite filter_cons. case_decide as Hx.
  - f_equal. apply IH. intros y Hy. apply Hno. by right.
  - exfalso. apply (Hno x); [left|]. by destruct (decide (getId x = id)).
Qed.

Lemma filter_removedById (id : jsstring) (l : list A) :
  removedById getId id l (filter (λ x, getId x ≠ id) l).
Proof.
  split_and!.
  - apply sublist_filter.
  - intros x. rewrite list_elem_of_filter. tauto.
  - apply filter_by_id_length.
Qed.
End Removal.

(** C10: each of the three removals deletes from its collection the items
    of the given id and only those, keeps the others in their order, and
    leaves the rest of the aggregate alone; an id nobody has changes
    nothing. *)
Theorem remove_spec (id : jsstring) (d : ResumeData) :
  (let d' := removeWorkExperience id d in
   removedById WorkExperience.id id (workExperience d) (workExperience d')
   ∧ contactInfo d' = contactInfo d
   ∧ education d' = education d
   ∧ skills d' = skills d
   ∧ summary d' = summary d
   ∧ ((∀ e, e ∈ workExperience d -> WorkExperience.id e ≠ id) -> d' = d))
  ∧ (let d' := removeEducation id d in
     removedById Education.id id (education d) (education d')
     ∧ contactInfo d' = contactInfo d
     ∧ workExperience d' = workExperience d
     ∧ skills d' = skills d
     ∧ summary d' = summary d
     ∧ ((∀ e, e ∈ education d -> Education.id e ≠ id) -> d' = d))
  ∧ (let d' := removeSkill id d in
     removedById Skill.id id (skills d) (skills d')
     ∧ contactInfo d' = contactInfo d
     ∧ workExperience d' = workExperience d
     ∧ education d' = education d
     ∧ summary d' = summary d
     ∧ ((∀ s, s ∈ skills d -> Skill.id s ≠ id) -> d' = d)).
Proof.
  unfold removeWorkExperience, removeEducation, removeSkill. simpl.
  split_and!; try done; try apply filter_removedById.
  all: intros Hno; rewrite filter_by_id_absent by done; apply ResumeData_eta.
Qed.

(** ** Completion against validation *)


Lemma newErrors_contact_empty (d : ResumeData) :
  newErrors 0 d = ∅ ↔
  stepCompleted 0 d = true
  ∧ RegExp.test EMAIL_RE (ContactInfo.email (contactInfo d)) = true.
Proof.
  pose proof (newErrors_contact_lookup d) as L. cbv zeta in L.
  unfold stepCompleted. split.
  - intros He.
    pose proof (L "firstName"%string) as L1. pose proof (L "lastName"%string) as L2.
    pose proof (L "email"%string) as L3. pose proof (L "phone"%string) as L4.
    rewrite He, lookup_empty in L1, L2, L3, L4. simpl in L1, L2, L3, L4.
    destruct (truthy (ContactInfo.firstName _)), (truthy (ContactInfo.lastName _)),
      (truthy (ContactInfo.email _)), (RegExp.test _ _),
      (truthy (ContactInfo.phone _)); done.
  - intros [Hc Hre]. apply map_eq. intros k. rewrite L, lookup_empty, Hre.
    destruct (truthy (ContactInfo.firstName _)), (truthy (ContactInfo.lastName _)),
      (truthy (ContactInfo.email _)), (truthy (ContactInfo.phone _));
      try done.
    by repeat case_decide.
Qed.



(** ** Identifiers of new items *)

Lemma js_inj (s1 s2 : string) : js s1 = js s2 -> s1 = s2.
Proof.
  unfold js. intros H.
  rewrite <- (string_of_list_ascii_of_string s1), <- (string_of_list_ascii_of_string s2).
  f_equal. revert H.
  generalize (list_ascii_of_string s1) (list_ascii_of_string s2).
  induction l as [|a l IH]; intros [|b l']; simpl; try done.
  intros [= Hab Hl]. f_equal; [|by apply IH].
  by rewrite <- (ascii_N_embedding a), <- (ascii_N_embedding b), Hab.
Qed.

Lemma Number_toString_inj (n1 n2 : Z) :
  Number_toString n1 = Number_toString n2 -> n1 = n2.
Proof.
  unfold Number_toString. intros H%js_inj.
  apply DecimalZ.to_int_inj.
  assert (Hnz : ∀ n, Z.to_int n ≠ Decimal.Pos Decimal.Nil
                     ∧ Z.to_int n ≠ Decimal.Neg Decimal.Nil).
  { intros [|p|p]; simpl; split; try done; intros [= Hp];
      by apply DecimalPos.Unsigned.to_uint_nonnil in Hp. }
  destruct (Hnz n1) as [H1 H1'], (Hnz n2) as [H2 H2'].
  assert (Some (Z.to_int n1) = Some (Z.to_int n2)) as [= ->]; [|done].
  rewrite <- (NilZero.isi (Z.to_int n1)), <- (NilZero.isi (Z.to_int n2)) by done.
  by rewrite H.
Qed.

(** X1: two skills added in a row: the second follows the first, both are
    beginners, and their ids differ exactly when the clock moved in between. *)
Theorem addSkill_twice (now1 now2 : Z) (d : ResumeData) :
  let s1 := Skill.mk (Number_toString now1) [] Skill.Beginner in
  let s2 := Skill.mk (Number_toString now2) [] Skill.Beginner in
  skills (addSkill now2 (addSkill now1 d)) = skills d ++ [s1; s2]
  ∧ (Skill.id s1 ≠ Skill.id s2 ↔ now1 ≠ now2).
Proof.
  simpl. split.
  - by rewrite <- app_assoc.
  - split; [congruence|]. intros Hne Heq. by apply Hne, Number_toString_inj.
Qed.

(** C3: two skills added while [Date.now()] reads the same millisecond carry
    the same id. *)
Theorem addSkill_same_millisecond :
  let d := addSkill 1700000000000 (addSkill 1700000000000 initialResumeData) in
  skills d = [ Skill.mk (js "1700000000000") [] Skill.Beginner;
               Skill.mk (js "1700000000000") [] Skill.Beginner ]
  ∧ ¬ NoDup (Skill.id <$> skills d).
Proof.
  split; [reflexivity|].
  intros H. apply NoDup_cons in H as [H _]. apply H. left.
Qed.

(** ** The completion percentage *)

Lemma satisfiedCount_sum (d : ResumeData) :
  satisfiedCount d =
    Z.b2z (stepCompleted 0 d) + Z.b2z (stepCompleted 1 d)
    + Z.b2z (stepCompleted 2 d) + Z.b2z (stepCompleted 3 d)
    + Z.b2z (stepCompleted 4 d).
Proof.
  unfold satisfiedCount. change (seqZ 0 5) with [0; 1; 2; 3; 4].
  rewrite !filter_cons, filter_nil.
  destruct (stepCompleted 0 d), (stepCompleted 1 d), (stepCompleted 2 d),
    (stepCompleted 3 d), (stepCompleted 4 d); reflexivity.
Qed.

Lemma satisfiedCount_range (d : ResumeData) : 0 <= satisfiedCount d <= 5.
Proof.
  rewrite satisfiedCount_sum.
  destruct (stepCompleted 0 d), (stepCompleted 1 d), (stepCompleted 2 d),
    (stepCompleted 3 d), (stepCompleted 4 d); simpl; lia.
Qed.

(** The program counts the steps that [stepCompleted] accepts. *)
Lemma getCompletionPercentage_count (d : ResumeData) :
  getCompletionPercentage d =
    Math_round (Number (satisfiedCount d) / Number 5 * 100)%float.
Proof.
  rewrite satisfiedCount_sum.
  unfold getCompletionPercentage. change STEPS_length with 5.
  change (truthy (ContactInfo.firstName (contactInfo d))
          && truthy (ContactInfo.lastName (contactInfo d))
          && truthy (ContactInfo.email (contactInfo d))
          && truthy (ContactInfo.phone (contactInfo d)))
    with (stepCompleted 0 d).
  change (0 <? length (workExperience d))%nat with (stepCompleted 1 d).
  change (0 <? length (education d))%nat with (stepCompleted 2 d).
  change (0 <? length (skills d))%nat with (stepCompleted 3 d).
  change (truthy (trim (summary d))) with (stepCompleted 4 d).
  destruct (stepCompleted 0 d), (stepCompleted 1 d), (stepCompleted 2 d),
    (stepCompleted 3 d), (stepCompleted 4 d); reflexivity.
Qed.

(** In binary64 the quotient by 5, scaled and rounded, is the exact
    percentage. *)
Lemma percentage_exact (c : Z) :
  0 <= c <= 5 ->
  Math_round (Number c / Number 5 * 100)%float
  = Number (round (100 * inject_Z c / 5)%Q).
Proof. intros H. count_cases c H; vm_compute; reflexivity. Qed.

Lemma round_count (c : Z) :
  0 <= c <= 5 -> round (100 * inject_Z c / 5)%Q = 20 * c.
Proof. intros H. count_cases c H; reflexivity. Qed.

Lemma Number_leb_percent (c c' : Z) :
  0 <= c <= c' -> c' <= 5 ->
  (Number (20 * c) <=? Number (20 * c'))%float = true.
Proof.
  intros H H'. assert (Hc : 0 <= c <= 5) by lia. assert (Hc' : 0 <= c' <= 5) by lia.
  count_cases c Hc; count_cases c' Hc'; try lia; vm_compute; reflexivity.
Qed.

Lemma b2z_le (b b' : bool) : (b = true -> b' = true) -> Z.b2z b <= Z.b2z b'.
Proof. destruct b, b'; simpl; lia. Qed.

Lemma satisfiedCount_mono (d d' : ResumeData) :
  (∀ k, 0 <= k <= 4 -> stepCompleted k d = true -> stepCompleted k d' = true) ->
  satisfiedCount d <= satisfiedCount d'.
Proof.
  intros H. rewrite !satisfiedCount_sum.
  pose proof (b2z_le _ _ (H 0 ltac:(lia))). pose proof (b2z_le _ _ (H 1 ltac:(lia))).
  pose proof (b2z_le _ _ (H 2 ltac:(lia))). pose proof (b2z_le _ _ (H 3 ltac:(lia))).
  pose proof (b2z_le _ _ (H 4 ltac:(lia))). lia.
Qed.

Lemma length_snoc_pos {A} (l : list A) (x : A) : (0 <? length (l ++ [x]))%nat = true.
Proof. rewrite length_app. apply Nat.ltb_lt. simpl. lia. Qed.

Lemma fills_stepCompleted (d d' : ResumeData) (k : Z) :
  fills d d' -> 0 <= k <= 4 ->
  stepCompleted k d = true -> stepCompleted k d' = true.
Proof.
  intros Hf Hk.
  assert (k = 0 ∨ k = 1 ∨ k = 2 ∨ k = 3 ∨ k = 4)
    as [-> | [-> | [-> | [-> | ->]]]] by lia;
    destruct Hf as [d0 f v Hf _ Hv|d0 now _|d0 now _|d0 now _|d0 text Htext];
    try done; unfold stepCompleted; simpl; intros H.
  - rewrite !andb_true_iff in *. apply truthy_true in Hv.
    destruct Hf as [-> | [-> | [-> | ->]]]; simpl; tauto.
  - apply length_snoc_pos.
  - apply length_snoc_pos.
  - apply length_snoc_pos.
  - by apply truthy_trim.
Qed.

(** C6: the percentage the program computes is
    [round(100 × satisfiedCount / 5)]; it is 0 for the initial aggregate and
    100 once the five steps are completed, and a mutation that fills
    something missing does not lower it. *)
Theorem getCompletionPercentage_spec :
  (∀ d, getCompletionPercentage d = Number (completionPercentage d))
  ∧ getCompletionPercentage initialResumeData = 0%float
  ∧ (∀ d, (∀ k, 0 <= k <= 4 -> stepCompleted k d = true) ->
       getCompletionPercentage d = 100%float)
  ∧ (∀ d d', fills d d' ->
       (getCompletionPercentage d <=? getCompletionPercentage d')%float = true).
Proof.
  split_and!.
  - intros d. rewrite getCompletionPercentage_count.
    apply percentage_exact, satisfiedCount_range.
  - vm_compute. reflexivity.
  - intros d H. rewrite getCompletionPercentage_count, satisfiedCount_sum.
    rewrite !H by lia. vm_compute. reflexivity.
  - intros d d' Hf. rewrite !getCompletionPercentage_count.
    pose proof (satisfiedCount_range d). pose proof (satisfiedCount_range d').
    rewrite !percentage_exact, !round_count by done.
    apply Number_leb_percent; [|lia].
    split; [lia|]. apply satisfiedCount_mono.
    intros k. by apply fills_stepCompleted.
Qed.

(** ** Further properties of the wizard *)

(** X2: [prevStep] goes back one step from any step after the first and
    stays on the first; it validates nothing: the stored errors and the data
    are kept. *)
Theorem prevStep_spec (st : State) :
  (0 < currentStep st -> currentStep (prevStep st) = currentStep st - 1)
  ∧ (currentStep st <= 0 -> currentStep (prevStep st) = currentStep st)
  ∧ errors (prevStep st) = errors st
  ∧ resumeData (prevStep st) = resumeData st
  ∧ showPreview (prevStep st) = showPreview st.
Proof.
  unfold prevStep.
  destruct (Z.ltb_spec 0 (currentStep st)); simpl; split_and!; try done; lia.
Qed.

(** The walk of the specification.  On the empty form Next stays on
    step 0 and reports the four required fields; with these filled in it
    reaches step 1 and reports nothing; with one work experience added, all
    of its fields empty, it reaches step 2. *)
Lemma wizard_scenario (now : Z) :
  let s1 := nextStep initialState in
  let s2 := run [ Mutate (SetContactField ContactInfo.FirstName (js "Ada"));
                  Mutate (SetContactField ContactInfo.LastName (js "Lovelace"));
                  Mutate (SetContactField ContactInfo.Email (js "ada@example.org"));
                  Mutate (SetContactField ContactInfo.Phone (js "555-0100"));
                  Next ] s1 in
  let s3 := run [ Mutate (AddWorkExperience now); Next ] s2 in
  currentStep s1 = 0
  ∧ errors s1 = <["firstName" := "First name is required"]>
                  (<["lastName" := "Last name is required"]>
                     (<["email" := "Email is required"]>
                        (<["phone" := "Phone is required"]> ∅)))
  ∧ currentStep s2 = 1
  ∧ errors s2 = ∅
  ∧ currentStep s3 = 2
  ∧ errors s3 = ∅.
Proof.
  split_and!; vm_compute; reflexivity.
Qed.

(** ** Instances

    Each theorem with a premise, used once on concrete data. *)


(** C4 with and without a postal address: the same outcome. *)
Lemma validateStep_contact_witness :
  errors (validateStep 0
            (mkState 0 (setContactField ContactInfo.Address (js "12 St James's Square")
                          contactWithBadEmail) ∅ false)).1
  = errors (validateStep 0 (mkState 0 contactWithBadEmail ∅ false)).1.
Proof.
  apply (validateStep_contact (mkState 0 contactWithBadEmail ∅ false));
    reflexivity.
Defined.

(** C5 on the empty form: the one error of step 1. *)
Lemma validateStep_collections_witness :
  errors (validateStep 1 initialState).1
  = {[ "workExperience" := "At least one work experience is required" ]}.
Proof.
  apply (validateStep_collections initialState). reflexivity.
Defined.

(** C6 on the completed aggregate, and on the first skill of an empty one. *)
Lemma getCompletionPercentage_spec_witness :
  getCompletionPercentage completeResume = 100%float
  ∧ (getCompletionPercentage initialResumeData
     <=? getCompletionPercentage (addSkill 1700000000003 initialResumeData))%float
    = true.
Proof.
  destruct getCompletionPercentage_spec as (_ & _ & Hfull & Hmono). split.
  - apply Hfull. intros k Hk.
    assert (k = 0 ∨ k = 1 ∨ k = 2 ∨ k = 3 ∨ k = 4)
      as [-> | [-> | [-> | [-> | ->]]]] by lia; vm_compute; reflexivity.
  - apply Hmono. apply fills_skills. reflexivity.
Defined.

(** C7 along the sample session. *)
Lemma currentStep_in_range_witness :
  0 <= currentStep (run sampleSession initialState) <= 4.
Proof.
  apply (proj1 currentStep_in_range).
  unfold sampleSession. repeat constructor; vm_compute; discriminate.
Defined.

(** C8 on the completed aggregate: ticking [current] keeps "1843-12". *)
Lemma updateWorkExperience_frame_witness :
  ∃ e', workExperience
          (updateWorkExperience (js "1700000000001") WorkExperience.Current true
             completeResume) !! 0%nat = Some e'
        ∧ WorkExperience.endDate e' = js "1843-12".
Proof.
  apply (proj2 (updateWorkExperience_frame (js "1700000000001") completeResume)
           0%nat pastPosition).
  reflexivity.
Defined.

(** C10 on the completed aggregate: an id nobody has. *)
Lemma remove_spec_witness :
  removeSkill (js "42") completeResume = completeResume.
Proof.
  destruct (remove_spec (js "42") completeResume) as (_ & _ & _ & _ & _ & _ & _ & H).
  apply H. intros s Hs. apply list_elem_of_singleton in Hs as ->.
  vm_compute. discriminate.
Defined.

(** X2 at step 3 of the completed aggregate: back to step 2. *)
Lemma prevStep_spec_witness :
  currentStep (prevStep (mkState 3 completeResume ∅ false)) = 2.
Proof.
  apply (proj1 (prevStep_spec (mkState 3 completeResume ∅ false))).
  simpl. lia.
Defined.

(** ** The page: what its sessions can and cannot reach *)

Lemma fireContent_frame view ev st st' :
  fireContent view ev st = Some st' ->
  currentStep st' = currentStep st
  ∧ errors st' = errors st
  ∧ showPreview st' = showPreview st.
Proof.
  destruct view, ev; simpl; intros H; simplify_option_eq;
    repeat case_match; simplify_eq; done.
Qed.

(** One event of the page moves the step index as one rendered intent
    does. *)
Lemma fire_in_range ev st st' :
  fire ev st = Some st' ->
  0 <= currentStep st <= 4 ->
  0 <= currentStep st' <= 4.
Proof.
  unfold fire. intros H Hst.
  destruct (showPreview st).
  { destruct ev; simplify_eq; done. }
  destruct ev; simplify_eq; try done;
    try (destruct (renderStepContent (currentStep st)) as [view|]; simpl in H;
         [apply fireContent_frame in H as (-> & _); done | done]).
  - destruct (currentStep st =? STEPS_length - 1); simplify_eq.
    apply (handle_in_range Next); done.
  - destruct (currentStep st =? 0); simplify_eq.
    apply (handle_in_range Previous); done.
  - destruct (Nat.ltb_spec index (length STEPS)) as [Hlt|]; simplify_eq.
    simpl in *. lia.
Qed.

(** An invariant of the events is an invariant of the sessions. *)
Lemma session_invariant (P : State -> Prop) :
  (∀ ev st st', P st -> fire ev st = Some st' -> P st') ->
  ∀ evs st st', P st -> session evs st = Some st' -> P st'.
Proof.
  intros Hstep. induction evs as [|ev evs IH]; simpl; intros st st' HP H.
  - by simplify_eq.
  - destruct (fire ev st) as [st1|] eqn:Hfire; simpl in H; [|done].
    eapply IH; [|done]. by eapply Hstep.
Qed.

Lemma session_in_range evs st' :
  session evs initialState = Some st' -> 0 <= currentStep st' <= 4.
Proof.
  apply (session_invariant (λ st, 0 <= currentStep st <= 4)); [|done].
  intros ev st st1 Hst H. by eapply fire_in_range.
Qed.

(** X3: in every state a session of the page reaches from the initial one,
    the header finds its title in [STEPS] and [renderStepContent] returns
    the content of a step, never [null]. *)
Theorem page_always_renders (evs : list UIEvent) (st' : State) :
  session evs initialState = Some st' ->
  (∃ title, stepTitle (currentStep st') = Some title)
  ∧ (∃ view, renderStepContent (currentStep st') = Some view).
Proof.
  intros H%session_in_range.
  assert (currentStep st' = 0 ∨ currentStep st' = 1 ∨ currentStep st' = 2
          ∨ currentStep st' = 3 ∨ currentStep st' = 4)
    as [-> | [-> | [-> | [-> | ->]]]] by lia; split; eexists; reflexivity.
Qed.

Lemma newErrors_no_summary (k : Z) (d : ResumeData) :
  0 <= k <= 3 -> newErrors k d !! "summary" = None.
Proof.
  intros Hk.
  assert (k = 0 ∨ k = 1 ∨ k = 2 ∨ k = 3) as [-> | [-> | [-> | ->]]] by lia.
  - by rewrite newErrors_contact_lookup.
  - unfold newErrors. by destruct (length (workExperience d) =? 0)%nat.
  - unfold newErrors. by destruct (length (education d) =? 0)%nat.
  - unfold newErrors. by destruct (length (skills d) =? 0)%nat.
Qed.

Lemma nextStep_errors (st : State) :
  errors (nextStep st) = newErrors (currentStep st) (resumeData st).
Proof.
  unfold nextStep.
  destruct (validateStep (currentStep st) st) as [st1 valid] eqn:Hv.
  injection Hv as <- _. by destruct (_ && _).
Qed.

Lemma nextStep_resumeData (st : State) : resumeData (nextStep st) = resumeData st.
Proof.
  unfold nextStep.
  destruct (validateStep (currentStep st) st) as [st1 valid] eqn:Hv.
  injection Hv as <- _. by destruct (_ && _).
Qed.

Lemma nextStep_showPreview (st : State) : showPreview (nextStep st) = showPreview st.
Proof.
  unfold nextStep.
  destruct (validateStep (currentStep st) st) as [st1 valid] eqn:Hv.
  injection Hv as <- _. by destruct (_ && _).
Qed.

Lemma prevStep_frame (st : State) :
  errors (prevStep st) = errors st
  ∧ resumeData (prevStep st) = resumeData st
  ∧ showPreview (prevStep st) = showPreview st.
Proof. unfold prevStep. by destruct (0 <? currentStep st). Qed.

(** X4: the page never reports a missing summary.  The Next button is
    disabled on the last step, so [validateStep] never runs for step 4 and
    the key [summary] never enters the stored errors. *)
Theorem summary_error_unreachable (evs : list UIEvent) (st' : State) :
  session evs initialState = Some st' ->
  errors st' !! "summary" = None.
Proof.
  intros H.
  cut (0 <= currentStep st' <= 4 ∧ errors st' !! "summary" = None); [tauto|].
  revert H.
  apply (session_invariant
           (λ st, 0 <= currentStep st <= 4 ∧ errors st !! "summary" = None));
    [|done].
  clear. intros ev st st' [Hr He] H.
  split; [by eapply fire_in_range|].
  unfold fire in H. destruct (showPreview st).
  { destruct ev; simplify_eq; done. }
  destruct ev; simplify_eq; try done;
    try (destruct (renderStepContent (currentStep st)) as [view|]; simpl in H;
         [apply fireContent_frame in H as (_ & -> & _); done | done]).
  - destruct (Z.eqb_spec (currentStep st) (STEPS_length - 1)) as [|Hne];
      simplify_eq.
    rewrite nextStep_errors. apply newErrors_no_summary.
    change (STEPS_length - 1) with 4 in Hne. lia.
  - destruct (currentStep st =? 0); simplify_eq.
    by destruct (prevStep_frame st) as (-> & _).
  - destruct (index <? length STEPS)%nat; simplify_eq. done.
Qed.

(** X5: only the Next button refreshes the stored errors: after a session
    without it, however the form was edited, they are what they were. *)
Theorem errors_refreshed_by_next_only (evs : list UIEvent) (st st' : State) :
  session evs st = Some st' ->
  forallb (λ ev, negb (isClickNext ev)) evs = true ->
  errors st' = errors st.
Proof.
  revert st. induction evs as [|ev evs IH]; simpl; intros st H Hn.
  - by simplify_eq.
  - apply andb_prop in Hn as [Hev Hn].
    destruct (fire ev st) as [st1|] eqn:Hfire; simpl in H; [|done].
    rewrite (IH st1 H Hn). clear IH H Hn.
    unfold fire in Hfire. destruct (showPreview st).
    { destruct ev; simplify_eq; done. }
    destruct ev; simplify_eq; try done;
      try (destruct (renderStepContent (currentStep st)) as [view|];
           simpl in Hfire;
           [apply fireContent_frame in Hfire as (_ & -> & _); done | done]).
    + destruct (currentStep st =? 0); simplify_eq.
      by destruct (prevStep_frame st) as (-> & _).
    + destruct (index <? length STEPS)%nat; simplify_eq. done.
Qed.

(** ** The page: gating *)

(** The content of a step edits the section of that step and no other. *)
Lemma fireContent_sections view ev st st' :
  fireContent view ev st = Some st' ->
  (view ≠ ContactView -> contactInfo (resumeData st') = contactInfo (resumeData st))
  ∧ (view ≠ ExperienceView ->
       workExperience (resumeData st') = workExperience (resumeData st))
  ∧ (view ≠ EducationView -> education (resumeData st') = education (resumeData st))
  ∧ (view ≠ SkillsView -> skills (resumeData st') = skills (resumeData st))
  ∧ (view ≠ SummaryView -> summary (resumeData st') = summary (resumeData st)).
Proof.
  destruct view, ev; simpl; intros H; simplify_option_eq;
    repeat case_match; simplify_eq; done.
Qed.

(** The errors of a step are a function of the section of that step. *)
Lemma newErrors_section (j : Z) (d d' : ResumeData) :
  0 <= j <= 4 ->
  (j = 0 -> contactInfo d' = contactInfo d) ->
  (j = 1 -> workExperience d' = workExperience d) ->
  (j = 2 -> education d' = education d) ->
  (j = 3 -> skills d' = skills d) ->
  (j = 4 -> summary d' = summary d) ->
  newErrors j d' = newErrors j d.
Proof.
  intros Hj H0 H1 H2 H3 H4.
  assert (j = 0 ∨ j = 1 ∨ j = 2 ∨ j = 3 ∨ j = 4)
    as [-> | [-> | [-> | [-> | ->]]]] by lia; unfold newErrors.
  - by rewrite H0.
  - by rewrite H1.
  - by rewrite H2.
  - by rewrite H3.
  - by rewrite H4.
Qed.

Lemma renderStepContent_view (k : Z) (view : StepView) :
  renderStepContent k = Some view ->
  (k = 0 ∧ view = ContactView) ∨ (k = 1 ∧ view = ExperienceView)
  ∨ (k = 2 ∧ view = EducationView) ∨ (k = 3 ∧ view = SkillsView)
  ∨ (k = 4 ∧ view = SummaryView).
Proof.
  destruct k as [|[[[]|[]|]|[[]|[]|]|]|]; simpl; intros H; simplify_eq; tauto.
Qed.

Lemma fire_gated ev st st' :
  fire ev st = Some st' -> isClickStep ev = false -> gated st -> gated st'.
Proof.
  intros H Hev [Hr Hg]. split; [by eapply fire_in_range|].
  unfold fire in H. destruct (showPreview st).
  { destruct ev; simplify_eq; done. }
  destruct ev; simplify_eq; try done;
    try (destruct (renderStepContent (currentStep st)) as [view|] eqn:Hview;
         simpl in H; [|done];
         pose proof (fireContent_frame _ _ _ _ H) as (Hcs & _);
         pose proof (fireContent_sections _ _ _ _ H) as (S0 & S1 & S2 & S3 & S4);
         rewrite Hcs; intros j Hj; rewrite <- (Hg j Hj);
         apply renderStepContent_view in Hview
           as [[? ->] | [[? ->] | [[? ->] | [[? ->] | [? ->]]]]];
         apply newErrors_section; intros; try lia;
         first [by apply S0 | by apply S1 | by apply S2 | by apply S3 | by apply S4]).
  - destruct (currentStep st =? STEPS_length - 1); simplify_eq.
    rewrite nextStep_resumeData, nextStep_currentStep.
    destruct (validateStep (currentStep st) st).2 eqn:Hv; simpl; [|done].
    destruct (Z.ltb_spec (currentStep st) 4); [|done].
    intros j Hj. destruct (decide (j = currentStep st)) as [->|].
    + by apply validateStep_valid.
    + apply Hg. lia.
  - destruct (currentStep st =? 0); simplify_eq.
    destruct (prevStep_frame st) as (_ & -> & _).
    rewrite prevStep_currentStep. intros j Hj. apply Hg.
    destruct (0 <? currentStep st); lia.
Qed.

Lemma session_gated evs st st' :
  session evs st = Some st' ->
  forallb (λ ev, negb (isClickStep ev)) evs = true ->
  gated st -> gated st'.
Proof.
  revert st. induction evs as [|ev evs IH]; simpl; intros st H Hn Hg.
  - by simplify_eq.
  - apply andb_prop in Hn as [Hev Hn].
    destruct (fire ev st) as [st1|] eqn:Hfire; simpl in H; [|done].
    apply (IH st1); try done.
    eapply fire_gated; [done| |done]. by destruct (isClickStep ev).
Qed.

Lemma initialState_gated : gated initialState.
Proof. split; simpl; [lia|]. intros j Hj. lia. Qed.

(** X6: as long as the sidebar is not used and the clock gives a different
    reading to each addition to a collection, the Next button is a gate: in
    every state of the session, every step before the current one passes its
    validation on the data as it then is. *)
Theorem steps_behind_are_valid (evs : list UIEvent) (st' : State) :
  session evs initialState = Some st' ->
  distinctReadings evs ->
  forallb (λ ev, negb (isClickStep ev)) evs = true ->
  ∀ j, 0 <= j < currentStep st' ->
       errors (validateStep j st').1 = ∅ ∧ (validateStep j st').2 = true.
Proof.
  intros H _ Hn j Hj.
  destruct (session_gated _ _ _ H Hn initialState_gated) as [_ Hg].
  rewrite validateStep_errors, validateStep_valid. by split; apply Hg.
Qed.

Lemma newErrors_empty_completed (j : Z) (d : ResumeData) :
  0 <= j <= 4 -> newErrors j d = ∅ -> stepCompleted j d = true.
Proof.
  intros Hj.
  assert (j = 0 ∨ j = 1 ∨ j = 2 ∨ j = 3 ∨ j = 4)
    as [-> | [-> | [-> | [-> | ->]]]] by lia.
  - by intros [H _]%newErrors_contact_empty.
  - unfold newErrors, stepCompleted. by destruct (workExperience d).
  - unfold newErrors, stepCompleted. by destruct (education d).
  - unfold newErrors, stepCompleted. by destruct (skills d).
  - unfold newErrors, stepCompleted. by destruct (truthy (trim (summary d))).
Qed.

Lemma gated_satisfiedCount (st : State) :
  gated st -> currentStep st <= satisfiedCount (resumeData st).
Proof.
  intros [Hr Hg]. rewrite satisfiedCount_sum.
  assert (Hc : ∀ j, 0 <= j < currentStep st ->
                    stepCompleted j (resumeData st) = true).
  { intros j Hj. apply newErrors_empty_completed; [lia|]. by apply Hg. }
  assert (Hb : ∀ b : bool, 0 <= Z.b2z b) by (by intros []).
  pose proof (Hb (stepCompleted 0 (resumeData st))).
  pose proof (Hb (stepCompleted 1 (resumeData st))).
  pose proof (Hb (stepCompleted 2 (resumeData st))).
  pose proof (Hb (stepCompleted 3 (resumeData st))).
  pose proof (Hb (stepCompleted 4 (resumeData st))).
  assert (currentStep st = 0 ∨ currentStep st = 1 ∨ currentStep st = 2
          ∨ currentStep st = 3 ∨ currentStep st = 4) as Hcs by lia.
  destruct Hcs as [E | [E | [E | [E | E]]]]; rewrite E in *;
    rewrite ?(Hc 0), ?(Hc 1), ?(Hc 2), ?(Hc 3) in * by lia; simpl in *; lia.
Qed.

(** X7: as long as the sidebar is not used and the clock gives a different
    reading to each addition to a collection, the progress shown is at least
    20 % for each step left behind. *)
Theorem progress_covers_steps_behind (evs : list UIEvent) (st' : State) :
  session evs initialState = Some st' ->
  distinctReadings evs ->
  forallb (λ ev, negb (isClickStep ev)) evs = true ->
  ∃ p, getCompletionPercentage (resumeData st') = Number p
       ∧ 20 * currentStep st' <= p <= 100.
Proof.
  intros H _ Hn.
  pose proof (gated_satisfiedCount _ (session_gated _ _ _ H Hn initialState_gated)).
  pose proof (satisfiedCount_range (resumeData st')).
  exists (20 * satisfiedCount (resumeData st')). split; [|lia].
  by rewrite getCompletionPercentage_count, percentage_exact, round_count.
Qed.

(** X8: in a session in which the clock has given a different reading to
    each addition to a collection, whatever the next event, the only section
    of the resume that it can change is the one of the current step: the
    contact on step 0, the work experience on step 1, the education on
    step 2, the skills on step 3, the summary on step 4. *)
Theorem only_current_section_changes
    (evs : list UIEvent) (ev : UIEvent) (st st' : State) :
  session evs initialState = Some st ->
  distinctReadings evs ->
  fire ev st = Some st' ->
  (currentStep st ≠ 0 -> contactInfo (resumeData st') = contactInfo (resumeData st))
  ∧ (currentStep st ≠ 1 ->
       workExperience (resumeData st') = workExperience (resumeData st))
  ∧ (currentStep st ≠ 2 -> education (resumeData st') = education (resumeData st))
  ∧ (currentStep st ≠ 3 -> skills (resumeData st') = skills (resumeData st))
  ∧ (currentStep st ≠ 4 -> summary (resumeData st') = summary (resumeData st)).
Proof.
  intros _ _ H. unfold fire in H. destruct (showPreview st).
  { destruct ev; simplify_eq; done. }
  destruct ev; simplify_eq; try done;
    try (destruct (renderStepContent (currentStep st)) as [view|] eqn:Hview;
         simpl in H; [|done];
         pose proof (fireContent_sections _ _ _ _ H) as (S0 & S1 & S2 & S3 & S4);
         apply renderStepContent_view in Hview
           as [[? ->] | [[? ->] | [[? ->] | [[? ->] | [? ->]]]]];
         split_and!; intros; first [done | by apply S0 | by apply S1
                                   | by apply S2 | by apply S3 | by apply S4]).
  - destruct (currentStep st =? STEPS_length - 1); simplify_eq.
    by rewrite nextStep_resumeData.
  - destruct (currentStep st =? 0); simplify_eq.
    by destruct (prevStep_frame st) as (_ & -> & _).
  - destruct (index <? length STEPS)%nat; simplify_eq. done.
Qed.

(** ** The page: the ids of the items *)

Lemma fmap_sublist {A B} (f : A -> B) (l1 l2 : list A) :
  sublist l1 l2 -> sublist (f <$> l1) (f <$> l2).
Proof. induction 1; simpl; by constructor. Qed.

Lemma fmap_update_ids {A} (getId : A -> jsstring) (P : A -> Prop)
    `{!∀ x, Decision (P x)} (f : A -> A) (l : list A) :
  (∀ x, getId (f x) = getId x) ->
  getId <$> ((λ x, if decide (P x) then f x else x) <$> l) = getId <$> l.
Proof.
  intros Hf. rewrite <- list_fmap_compose. apply list_fmap_ext.
  intros i x _. simpl. by case_decide.
Qed.

Lemma WorkExperience_set_id field value exp :
  field ≠ WorkExperience.Id ->
  WorkExperience.id (WorkExperience.set field value exp) = WorkExperience.id exp.
Proof. by destruct field. Qed.

Lemma Education_set_id field value edu :
  field ≠ Education.Id ->
  Education.id (Education.set field value edu) = Education.id edu.
Proof. by destruct field. Qed.

Lemma Skill_set_id field value skill :
  field ≠ Skill.Id ->
  Skill.id (Skill.set field value skill) = Skill.id skill.
Proof. by destruct field. Qed.

(** What an event does to the ids of a collection: an addition appends the
    rendering of its clock reading, everything else keeps them or drops
    some. *)
Lemma fire_experienceIds ev st st' :
  fire ev st = Some st' ->
  match ev with
  | ClickAddExperience now =>
      experienceIds st' = experienceIds st ++ [Number_toString now]
  | _ => sublist (experienceIds st') (experienceIds st)
  end.
Proof.
  intros H.
  unfold fire in H. destruct (showPreview st).
  { destruct ev; simplify_eq; done. }
  unfold experienceIds.
  destruct ev; simplify_eq; try done;
    try (destruct (currentStep st =? _); simplify_eq;
         by rewrite ?nextStep_resumeData, ?(proj1 (proj2 (prevStep_frame st))));
    try (destruct (index <? length STEPS)%nat; by simplify_eq);
    destruct (renderStepContent (currentStep st)) as [view|]; simpl in H;
    try done; destruct view; simpl in H; simplify_option_eq;
    repeat case_match; simplify_eq; simpl; try done.
  - by rewrite fmap_app.
  - apply fmap_sublist, sublist_filter.
  - rewrite fmap_update_ids; [reflexivity|].
    intros x. apply WorkExperience_set_id. by destruct field.
Qed.

Lemma fire_educationIds ev st st' :
  fire ev st = Some st' ->
  match ev with
  | ClickAddEducation now =>
      educationIds st' = educationIds st ++ [Number_toString now]
  | _ => sublist (educationIds st') (educationIds st)
  end.
Proof.
  intros H. unfold fire in H. destruct (showPreview st).
  { destruct ev; simplify_eq; done. }
  unfold educationIds.
  destruct ev; simplify_eq; try done;
    try (destruct (currentStep st =? _); simplify_eq;
         by rewrite ?nextStep_resumeData, ?(proj1 (proj2 (prevStep_frame st))));
    try (destruct (index <? length STEPS)%nat; by simplify_eq);
    destruct (renderStepContent (currentStep st)) as [view|]; simpl in H;
    try done; destruct view; simpl in H; simplify_option_eq;
    repeat case_match; simplify_eq; simpl; try done.
  - by rewrite fmap_app.
  - apply fmap_sublist, sublist_filter.
  - rewrite fmap_update_ids; [reflexivity|].
    intros x. apply Education_set_id. by destruct field.
Qed.

Lemma fire_skillIds ev st st' :
  fire ev st = Some st' ->
  match ev with
  | ClickAddSkill now => skillIds st' = skillIds st ++ [Number_toString now]
  | _ => sublist (skillIds st') (skillIds st)
  end.
Proof.
  intros H. unfold fire in H. destruct (showPreview st).
  { destruct ev; simplify_eq; done. }
  unfold skillIds.
  destruct ev; simplify_eq; try done;
    try (destruct (currentStep st =? _); simplify_eq;
         by rewrite ?nextStep_resumeData, ?(proj1 (proj2 (prevStep_frame st))));
    try (destruct (index <? length STEPS)%nat; by simplify_eq);
    destruct (renderStepContent (currentStep st)) as [view|]; simpl in H;
    try done; destruct view; simpl in H; simplify_option_eq;
    repeat case_match; simplify_eq; simpl; try done.
  - by rewrite fmap_app.
  - apply fmap_sublist, sublist_filter.
  - rewrite fmap_update_ids; [reflexivity|].
    intros x. apply Skill_set_id. by destruct field.
Qed.

Section Ids.
Context (ids : State -> list jsstring) (added : UIEvent -> option Z).
Context (effect : ∀ ev st st', fire ev st = Some st' ->
           match added ev with
           | Some now => ids st' = ids st ++ [Number_toString now]
           | None => sublist (ids st') (ids st)
           end).

Lemma session_ids_provenance evs st st' x :
  session evs st = Some st' ->
  x ∈ ids st' ->
  x ∈ ids st ∨ ∃ now, now ∈ omap added evs ∧ x = Number_toString now.
Proof.
  revert st. induction evs as [|ev evs IH]; simpl; intros st H Hx.
  - simplify_eq. by left.
  - destruct (fire ev st) as [st1|] eqn:Hfire; simpl in H; [|done].
    specialize (effect _ _ _ Hfire).
    destruct (IH st1 H Hx) as [Hin|(now & Hnow & ->)].
    + destruct (added ev) as [now|].
      * rewrite effect in Hin. apply elem_of_app in Hin as [Hin|Hin]; [by left|].
        apply list_elem_of_singleton in Hin as ->.
        right. exists now. split; [left|done].
      * left. by eapply elem_of_sublist.
    + right. exists now. split; [|done].
      destruct (added ev); [by right|done].
Qed.

Lemma session_ids_NoDup evs st st' :
  session evs st = Some st' ->
  NoDup (omap added evs) ->
  NoDup (ids st) ->
  (∀ now, now ∈ omap added evs -> Number_toString now ∉ ids st) ->
  NoDup (ids st').
Proof.
  revert st. induction evs as [|ev evs IH]; simpl; intros st H Hnd Hids Hfresh.
  - by simplify_eq.
  - destruct (fire ev st) as [st1|] eqn:Hfire; simpl in H; [|done].
    specialize (effect _ _ _ Hfire).
    destruct (added ev) as [now|].
    + apply NoDup_cons in Hnd as [Hnow Hnd].
      apply (IH st1); try done; rewrite effect.
      * apply NoDup_app. split_and!; [done| |apply NoDup_singleton].
        intros x Hx ->%list_elem_of_singleton.
        apply (Hfresh now); [left|done].
      * intros now' Hnow' [Hin|Hin]%elem_of_app.
        -- apply (Hfresh now'); [by right|done].
        -- apply list_elem_of_singleton, Number_toString_inj in Hin as ->. done.
    + apply (IH st1); try done.
      * by eapply sublist_NoDup.
      * intros now' Hnow' Hin. apply (Hfresh now'); [done|].
        by eapply elem_of_sublist.
Qed.
End Ids.

(** X9: through the page an id is never edited: in every state of a
    session, the id of every item is the decimal rendering of the clock
    reading of an earlier click on the Add button of its collection. *)
Theorem ids_are_clock_readings (evs : list UIEvent) (st' : State) :
  session evs initialState = Some st' ->
  (∀ exp, exp ∈ workExperience (resumeData st') ->
     ∃ now, now ∈ experienceReadings evs ∧ WorkExperience.id exp = Number_toString now)
  ∧ (∀ edu, edu ∈ education (resumeData st') ->
       ∃ now, now ∈ educationReadings evs ∧ Education.id edu = Number_toString now)
  ∧ (∀ skill, skill ∈ skills (resumeData st') ->
       ∃ now, now ∈ skillReadings evs ∧ Skill.id skill = Number_toString now).
Proof.
  intros H. split_and!.
  - intros exp Hexp.
    destruct (session_ids_provenance experienceIds
                (λ ev, match ev with ClickAddExperience now => Some now | _ => None end)
                (λ ev st st' Hf, ltac:(by pose proof (fire_experienceIds _ _ _ Hf);
                                           destruct ev))
                evs initialState st' (WorkExperience.id exp) H)
      as [Hin|Hnow]; [by apply list_elem_of_fmap_2| |done].
    by apply elem_of_nil in Hin.
  - intros edu Hedu.
    destruct (session_ids_provenance educationIds
                (λ ev, match ev with ClickAddEducation now => Some now | _ => None end)
                (λ ev st st' Hf, ltac:(by pose proof (fire_educationIds _ _ _ Hf);
                                           destruct ev))
                evs initialState st' (Education.id edu) H)
      as [Hin|Hnow]; [by apply list_elem_of_fmap_2| |done].
    by apply elem_of_nil in Hin.
  - intros skill Hskill.
    destruct (session_ids_provenance skillIds
                (λ ev, match ev with ClickAddSkill now => Some now | _ => None end)
                (λ ev st st' Hf, ltac:(by pose proof (fire_skillIds _ _ _ Hf);
                                           destruct ev))
                evs initialState st' (Skill.id skill) H)
      as [Hin|Hnow]; [by apply list_elem_of_fmap_2| |done].
    by apply elem_of_nil in Hin.
Qed.

(** X10: if the clock never gives the same reading to two additions to the
    same collection, the ids of each collection are pairwise distinct in
    every state of the session. *)
Theorem ids_distinct_when_clock_moves (evs : list UIEvent) (st' : State) :
  session evs initialState = Some st' ->
  NoDup (experienceReadings evs) ->
  NoDup (educationReadings evs) ->
  NoDup (skillReadings evs) ->
  NoDup (experienceIds st') ∧ NoDup (educationIds st') ∧ NoDup (skillIds st').
Proof.
  intros H H1 H2 H3. split_and!.
  - apply (session_ids_NoDup experienceIds
             (λ ev, match ev with ClickAddExperience now => Some now | _ => None end)
             (λ ev st st' Hf, ltac:(by pose proof (fire_experienceIds _ _ _ Hf);
                                        destruct ev))
             evs initialState st' H H1); [constructor|].
    intros now _ Hin. by apply elem_of_nil in Hin.
  - apply (session_ids_NoDup educationIds
             (λ ev, match ev with ClickAddEducation now => Some now | _ => None end)
             (λ ev st st' Hf, ltac:(by pose proof (fire_educationIds _ _ _ Hf);
                                        destruct ev))
             evs initialState st' H H2); [constructor|].
    intros now _ Hin. by apply elem_of_nil in Hin.
  - apply (session_ids_NoDup skillIds
             (λ ev, match ev with ClickAddSkill now => Some now | _ => None end)
             (λ ev st st' Hf, ltac:(by pose proof (fire_skillIds _ _ _ Hf);
                                        destruct ev))
             evs initialState st' H H3); [constructor|].
    intros now _ Hin. by apply elem_of_nil in Hin.
Qed.

(** ** Validation of the summary and of the e-mail address *)

(** X11: [validateStep(4)] reports "Summary is required" exactly when the
    summary is empty or nothing but white space, and nothing otherwise. *)
Theorem validateStep_summary (st : State) :
  let e := errors (validateStep 4 st).1 in
  (blank (summary (resumeData st)) ->
     e = {[ "summary" := "Summary is required" ]} ∧ (validateStep 4 st).2 = false)
  ∧ (¬ blank (summary (resumeData st)) -> e = ∅ ∧ (validateStep 4 st).2 = true).
Proof.
  intros e. subst e.
  assert (Hv : (validateStep 4 st).2 = truthy (trim (summary (resumeData st)))).
  { apply eq_true_iff_eq. rewrite validateStep_valid. unfold newErrors.
    destruct (truthy (trim (summary (resumeData st)))); simpl; [done|].
    split; [|done]. intros H. by apply insert_non_empty in H. }
  rewrite Hv, validateStep_errors. unfold newErrors.
  destruct (truthy (trim (summary (resumeData st)))) eqn:Ht; simpl.
  - apply truthy_trim in Ht. split; [done|]. by intros _.
  - apply not_true_iff_false in Ht. rewrite truthy_trim in Ht.
    split; [|done]. intros _. by rewrite insert_empty.
Qed.

Lemma emailShape_at_dot (s : jsstring) : emailShape s -> 64%N ∈ s ∧ 46%N ∈ s.
Proof.
  intros (pre & u & v & w & post & -> & _). split.
  - apply elem_of_app. right. apply elem_of_app. right. left.
  - apply elem_of_app. right. apply elem_of_app. right. right.
    apply elem_of_app. right. left.
Qed.

Lemma emailShape_extend (pre s post : jsstring) :
  emailShape s -> emailShape (pre ++ s ++ post).
Proof.
  intros (pre' & u & v & w & post' & -> & H).
  exists (pre ++ pre'), u, v, w, (post' ++ post). split; [|done].
  by rewrite <- !app_assoc, <- !app_comm_cons, <- !app_assoc, <- !app_comm_cons,
       <- !app_assoc.
Qed.

Lemma newErrors_email (d : ResumeData) :
  newErrors 0 d !! "email" =
    if truthy (ContactInfo.email (contactInfo d))
    then if RegExp.test EMAIL_RE (ContactInfo.email (contactInfo d)) then None
         else Some "Email is invalid"
    else Some "Email is required".
Proof. by rewrite newErrors_contact_lookup. Qed.

(** X12: an e-mail address that is not empty and lacks an [@] or a dot is
    reported as invalid. *)
Theorem email_needs_at_and_dot (st : State) :
  let email := ContactInfo.email (contactInfo (resumeData st)) in
  email ≠ [] ->
  64%N ∉ email ∨ 46%N ∉ email ->
  errors (validateStep 0 st).1 !! "email" = Some "Email is invalid".
Proof.
  intros email Hne Hno. rewrite validateStep_errors, newErrors_email. fold email.
  apply truthy_true in Hne as ->.
  destruct (RegExp.test EMAIL_RE email) eqn:Hre; [|done].
  apply test_EMAIL_RE, emailShape_at_dot in Hre. tauto.
Qed.

(** X13: the pattern of the e-mail address is not anchored: text that passes
    still passes with anything, white space included, put before or after
    it. *)
Theorem email_accepted_inside_any_text (st : State) (pre s post : jsstring) :
  let withEmail v := setResumeData (setContactField ContactInfo.Email v) st in
  errors (validateStep 0 (withEmail s)).1 !! "email" = None ->
  errors (validateStep 0 (withEmail (pre ++ s ++ post))).1 !! "email" = None.
Proof.
  intros withEmail. subst withEmail.
  rewrite !validateStep_errors, !newErrors_email. simpl.
  destruct (truthy s) eqn:Hs; [|done].
  destruct (RegExp.test EMAIL_RE s) eqn:Hre; [|done]. intros _.
  apply test_EMAIL_RE in Hre.
  assert (Hne : truthy (pre ++ s ++ post) = true).
  { apply truthy_true. apply truthy_true in Hs. by destruct pre, s. }
  rewrite Hne.
  by apply (emailShape_extend pre _ post), test_EMAIL_RE in Hre as ->.
Qed.

(** ** The sidebar, the progress bar and the preview *)

Lemma isCompleted_eq (index : Z) (st : State) :
  isCompleted index st
  = (index <? currentStep st) || stepCompleted index (resumeData st).
Proof.
  unfold isCompleted, stepCompleted.
  destruct (index <? currentStep st); [done|]. simpl.
  destruct index as [|[[[]|[]|]|[[]|[]|]|]|]; simpl;
    rewrite ?orb_false_r; try done.
Qed.

(** X14: the caption of a step of the sidebar is "Completed" when the step
    is before the current one or [getCompletionPercentage] counts it, else
    "In Progress" on the current step and "Pending" on a later one. *)
Theorem sidebar_captions (index : Z) (st : State) :
  let counted := stepCompleted index (resumeData st) in
  (stepCaption index st = "Completed" ↔ index < currentStep st ∨ counted = true)
  ∧ (stepCaption index st = "In Progress" ↔
       index = currentStep st ∧ counted = false)
  ∧ (stepCaption index st = "Pending" ↔
       currentStep st < index ∧ counted = false).
Proof.
  intros counted. unfold stepCaption, isActive. rewrite isCompleted_eq.
  fold counted.
  destruct (Z.ltb_spec index (currentStep st)), counted,
    (Z.eqb_spec (currentStep st) index); simpl;
    split_and!; split; try done; try lia; intros; try lia; intuition lia.
Qed.

(** A jump over steps marks them "Completed" in the sidebar, filled in
    or not, and leaves the percentage where it was. *)
Lemma jump_marks_steps_completed (k index : Z) (st : State) :
  index < k ->
  stepCaption index (jumpTo k st) = "Completed"
  ∧ getCompletionPercentage (resumeData (jumpTo k st))
    = getCompletionPercentage (resumeData st).
Proof.
  intros H. split; [|done].
  unfold stepCaption. rewrite isCompleted_eq. simpl.
  by destruct (Z.ltb_spec index k); [|lia].
Qed.

(** X15: the width of the progress bar, computed in binary64 as
    [(value / 100) * 100], is the percentage itself. *)
Theorem progress_bar_matches_percentage (d : ResumeData) :
  progressBarWidth d = getCompletionPercentage d.
Proof.
  unfold progressBarWidth.
  pose proof (satisfiedCount_range d) as H.
  rewrite getCompletionPercentage_count, percentage_exact, round_count by done.
  generalize dependent (satisfiedCount d). intros c H.
  count_cases c H; vm_compute; reflexivity.
Qed.

(** X16: in the preview a position that is marked current ends with
    "Present" whatever end date it stores, and once the mark is taken off
    again it ends with the end date it had. *)
Theorem period_of_a_current_position (id : jsstring) (d : ResumeData)
    (card : nat) (exp : WorkExperience.t) :
  workExperience d !! card = Some exp ->
  WorkExperience.id exp = id ->
  let ticked := updateWorkExperience id WorkExperience.Current true d in
  let unticked := updateWorkExperience id WorkExperience.Current false ticked in
  (periodText <$> workExperience ticked) !! card
  = Some (WorkExperience.startDate exp ++ js " - " ++ js "Present")
  ∧ (periodText <$> workExperience unticked) !! card
    = Some (WorkExperience.startDate exp ++ js " - " ++ WorkExperience.endDate exp).
Proof.
  intros Hcard Hid. simpl. rewrite !list_lookup_fmap, Hcard. simpl.
  rewrite decide_True by done. simpl. by rewrite decide_True by done.
Qed.

Lemma elem_of_previewSections (d : ResumeData) (x : string) :
  x ∈ previewSections d ↔
  (x = "Professional Summary" ∧ truthy (summary d) = true)
  ∨ (x = "Work Experience" ∧ (0 <? length (workExperience d))%nat = true)
  ∨ (x = "Education" ∧ (0 <? length (education d))%nat = true)
  ∨ (x = "Skills" ∧ (0 <? length (skills d))%nat = true).
Proof.
  unfold previewSections. rewrite !elem_of_app.
  destruct (truthy (summary d)), (0 <? length (workExperience d))%nat,
    (0 <? length (education d))%nat, (0 <? length (skills d))%nat;
    rewrite ?list_elem_of_singleton, ?elem_of_nil; intuition discriminate.
Qed.

(** X17: the preview shows the sections of the collections exactly when
    their steps count as completed, in the order summary, work experience,
    education, skills; the summary is shown as soon as it is not empty, so
    also when it is blank and its step does not count. *)
Theorem previewSections_spec (d : ResumeData) :
  ("Work Experience" ∈ previewSections d ↔ stepCompleted 1 d = true)
  ∧ ("Education" ∈ previewSections d ↔ stepCompleted 2 d = true)
  ∧ ("Skills" ∈ previewSections d ↔ stepCompleted 3 d = true)
  ∧ ("Professional Summary" ∈ previewSections d ↔ summary d ≠ [])
  ∧ (stepCompleted 4 d = true -> "Professional Summary" ∈ previewSections d)
  ∧ sublist (previewSections d)
      ["Professional Summary"; "Work Experience"; "Education"; "Skills"].
Proof.
  rewrite !elem_of_previewSections, <- truthy_true. unfold stepCompleted.
  split_and!; try (intuition discriminate).
  - rewrite truthy_trim, truthy_true. intros Hb. left. split; [done|].
    intros Heq. apply Hb. rewrite Heq. constructor.
  - unfold previewSections.
    destruct (truthy (summary d)), (0 <? length (workExperience d))%nat,
      (0 <? length (education d))%nat, (0 <? length (skills d))%nat; simpl;
      repeat first [apply sublist_nil_l | apply sublist_skip | apply sublist_cons].
Qed.

(** ** How the handlers of the collections compose *)

Lemma ResumeData_eq (d d' : ResumeData) :
  contactInfo d' = contactInfo d ->
  workExperience d' = workExperience d ->
  education d' = education d ->
  skills d' = skills d ->
  summary d' = summary d ->
  d' = d.
Proof. destruct d, d'; simpl; congruence. Qed.

Lemma filter_snoc_id {A} (getId : A -> jsstring) (id : jsstring) (l : list A) (x : A) :
  getId x = id ->
  filter (λ y, getId y ≠ id) (l ++ [x]) = filter (λ y, getId y ≠ id) l.
Proof.
  intros Hx. rewrite filter_app, filter_cons, filter_nil.
  rewrite decide_False by (by intros H; apply H). apply app_nil_r.
Qed.

(** X18: an item added and removed again by its id is gone, together with
    every older item of the same id; when the id was fresh, the aggregate
    is what it was before the addition. *)
Theorem add_then_remove (now : Z) (d : ResumeData) :
  let id := Number_toString now in
  (removeWorkExperience id (addWorkExperience now d) = removeWorkExperience id d
   ∧ ((∀ exp, exp ∈ workExperience d -> WorkExperience.id exp ≠ id) ->
        removeWorkExperience id (addWorkExperience now d) = d))
  ∧ (removeEducation id (addEducation now d) = removeEducation id d
     ∧ ((∀ edu, edu ∈ education d -> Education.id edu ≠ id) ->
          removeEducation id (addEducation now d) = d))
  ∧ (removeSkill id (addSkill now d) = removeSkill id d
     ∧ ((∀ skill, skill ∈ skills d -> Skill.id skill ≠ id) ->
          removeSkill id (addSkill now d) = d)).
Proof.
  intros id.
  assert (H1 : removeWorkExperience id (addWorkExperience now d)
               = removeWorkExperience id d).
  { unfold removeWorkExperience, addWorkExperience. simpl.
    by rewrite filter_snoc_id. }
  assert (H2 : removeEducation id (addEducation now d) = removeEducation id d).
  { unfold removeEducation, addEducation. simpl. by rewrite filter_snoc_id. }
  assert (H3 : removeSkill id (addSkill now d) = removeSkill id d).
  { unfold removeSkill, addSkill. simpl. by rewrite filter_snoc_id. }
  rewrite H1, H2, H3. split_and!; try done; intros Hfresh.
  - unfold removeWorkExperience. rewrite filter_by_id_absent by done.
    apply ResumeData_eta.
  - unfold removeEducation. rewrite filter_by_id_absent by done.
    apply ResumeData_eta.
  - unfold removeSkill. rewrite filter_by_id_absent by done.
    apply ResumeData_eta.
Qed.

(** Removing an id twice is removing it once, and two removals can be
    done in either order, in each of the three collections. *)
Lemma remove_twice_and_in_any_order (id1 id2 : jsstring) (d : ResumeData) :
  removeWorkExperience id1 (removeWorkExperience id1 d) = removeWorkExperience id1 d
  ∧ removeWorkExperience id1 (removeWorkExperience id2 d)
    = removeWorkExperience id2 (removeWorkExperience id1 d)
  ∧ removeEducation id1 (removeEducation id1 d) = removeEducation id1 d
  ∧ removeEducation id1 (removeEducation id2 d)
    = removeEducation id2 (removeEducation id1 d)
  ∧ removeSkill id1 (removeSkill id1 d) = removeSkill id1 d
  ∧ removeSkill id1 (removeSkill id2 d) = removeSkill id2 (removeSkill id1 d).
Proof.
  unfold removeWorkExperience, removeEducation, removeSkill. simpl.
  split_and!; f_equal; rewrite ?list_filter_filter;
    apply list_filter_iff; tauto.
Qed.

Lemma WorkExperience_set_set k v1 v2 e :
  WorkExperience.set k v2 (WorkExperience.set k v1 e) = WorkExperience.set k v2 e.
Proof. by destruct k. Qed.

Lemma WorkExperience_set_comm k1 k2 v1 v2 e :
  k1 ≠ k2 ->
  WorkExperience.set k1 v1 (WorkExperience.set k2 v2 e)
  = WorkExperience.set k2 v2 (WorkExperience.set k1 v1 e).
Proof. by destruct k1, k2. Qed.

(** X19: [updateWorkExperience] done twice with the same arguments is done
    once; of two writes to the same field of the same id, the id itself
    apart, the later one stays. *)
Theorem updateWorkExperience_twice (id : jsstring)
    (field : WorkExperience.key) (v1 v2 : WorkExperience.value field)
    (d : ResumeData) :
  updateWorkExperience id field v1 (updateWorkExperience id field v1 d)
  = updateWorkExperience id field v1 d
  ∧ (field ≠ WorkExperience.Id ->
       updateWorkExperience id field v2 (updateWorkExperience id field v1 d)
       = updateWorkExperience id field v2 d).
Proof.
  unfold updateWorkExperience. simpl. split; [|intros Hf]; f_equal;
    rewrite <- list_fmap_compose; apply list_fmap_ext; intros i e _; simpl.
  - destruct (decide (WorkExperience.id e = id)) as [He|He].
    + case_decide; [apply WorkExperience_set_set|done].
    + by rewrite decide_False.
  - destruct (decide (WorkExperience.id e = id)) as [He|He].
    + rewrite WorkExperience_set_id, decide_True by done.
      apply WorkExperience_set_set.
    + by rewrite decide_False.
Qed.

(** X20: two updates that do not write ids and differ in the id they look
    for or in the field they write can be done in either order. *)
Theorem updateWorkExperience_commute (id1 id2 : jsstring)
    (field1 field2 : WorkExperience.key)
    (v1 : WorkExperience.value field1) (v2 : WorkExperience.value field2)
    (d : ResumeData) :
  field1 ≠ WorkExperience.Id ->
  field2 ≠ WorkExperience.Id ->
  id1 ≠ id2 ∨ field1 ≠ field2 ->
  updateWorkExperience id1 field1 v1 (updateWorkExperience id2 field2 v2 d)
  = updateWorkExperience id2 field2 v2 (updateWorkExperience id1 field1 v1 d).
Proof.
  intros H1 H2 Hne. unfold updateWorkExperience. simpl. f_equal.
  rewrite <- !list_fmap_compose. apply list_fmap_ext. intros i e _. simpl.
  destruct (decide (WorkExperience.id e = id1)) as [E1|E1],
    (decide (WorkExperience.id e = id2)) as [E2|E2];
    rewrite ?WorkExperience_set_id by done;
    rewrite ?decide_True, ?decide_False by done; try done.
  destruct Hne as [Hne|Hne]; [congruence|].
  by apply WorkExperience_set_comm.
Qed.

(** X21: an update after the removal of its id finds nothing to write; a
    removal after an update that did not write ids removes what it would
    have removed before. *)
Theorem update_and_remove (id : jsstring) (field : WorkExperience.key)
    (value : WorkExperience.value field) (d : ResumeData) :
  updateWorkExperience id field value (removeWorkExperience id d)
  = removeWorkExperience id d
  ∧ (field ≠ WorkExperience.Id ->
       workExperience (removeWorkExperience id (updateWorkExperience id field value d))
       = workExperience (removeWorkExperience id d)).
Proof.
  split.
  - unfold updateWorkExperience, removeWorkExperience. simpl. f_equal.
    apply fmap_unless. by intros e [He _]%list_elem_of_filter.
  - intros Hf. unfold updateWorkExperience, removeWorkExperience. simpl.
    induction (workExperience d) as [|e l IH]; [done|].
    rewrite fmap_cons, !filter_cons.
    destruct (decide (WorkExperience.id e = id)) as [He|He].
    + rewrite WorkExperience_set_id by done.
      by rewrite !decide_False by (by intros H; apply H).
    + rewrite !decide_True by done. by f_equal.
Qed.

Lemma Education_get_set k v e :
  Education_get k (Education.set k v e) = Education_written k v.
Proof. by destruct k. Qed.

Lemma Education_get_set_ne k k' v e :
  k' ≠ k -> Education_get k' (Education.set k v e) = Education_get k' e.
Proof. by destruct k, k'. Qed.

Lemma Skill_get_set k v s : Skill_get k (Skill.set k v s) = v.
Proof. by destruct k. Qed.

Lemma Skill_get_set_ne k k' v s :
  k' ≠ k -> Skill_get k' (Skill.set k v s) = Skill_get k' s.
Proof. by destruct k, k'. Qed.

(** X22: [updateEducation] writes the named field of the entries with the
    given id (a grade point average becomes present) and touches nothing
    else; without an entry of that id the aggregate is as before. *)
Theorem updateEducation_frame (id : jsstring) (field : Education.key)
    (value : jsstring) (d : ResumeData) :
  let d' := updateEducation id field value d in
  contactInfo d' = contactInfo d
  ∧ workExperience d' = workExperience d
  ∧ skills d' = skills d
  ∧ summary d' = summary d
  ∧ length (education d') = length (education d)
  ∧ (∀ i e, education d !! i = Some e ->
       ∃ e', education d' !! i = Some e'
             ∧ (Education.id e ≠ id -> e' = e)
             ∧ (Education.id e = id ->
                  Education_get field e' = Education_written field value
                  ∧ ∀ k, k ≠ field -> Education_get k e' = Education_get k e))
  ∧ ((∀ e, e ∈ education d -> Education.id e ≠ id) -> d' = d).
Proof.
  intros d'. subst d'. unfold updateEducation. simpl.
  split_and!; try done.
  - apply length_fmap.
  - intros i e Hi. rewrite list_lookup_fmap, Hi. simpl.
    eexists. split; [done|]. case_decide; split; try done.
    intros _. split.
    + apply Education_get_set.
    + intros k Hk. by apply Education_get_set_ne.
  - intros H. rewrite fmap_unless; [apply ResumeData_eta|].
    intros e He Heq. by apply (H e).
Qed.

(** X23: [updateSkill] writes the named field of the skills with the given
    id and touches nothing else; without a skill of that id the aggregate is
    as before. *)
Theorem updateSkill_frame (id : jsstring) (field : Skill.key)
    (value : Skill.value field) (d : ResumeData) :
  let d' := updateSkill id field value d in
  contactInfo d' = contactInfo d
  ∧ workExperience d' = workExperience d
  ∧ education d' = education d
  ∧ summary d' = summary d
  ∧ length (skills d') = length (skills d)
  ∧ (∀ i s, skills d !! i = Some s ->
       ∃ s', skills d' !! i = Some s'
             ∧ (Skill.id s ≠ id -> s' = s)
             ∧ (Skill.id s = id ->
                  Skill_get field s' = value
                  ∧ ∀ k, k ≠ field -> Skill_get k s' = Skill_get k s))
  ∧ ((∀ s, s ∈ skills d -> Skill.id s ≠ id) -> d' = d).
Proof.
  intros d'. subst d'. unfold updateSkill. simpl.
  split_and!; try done.
  - apply length_fmap.
  - intros i s Hi. rewrite list_lookup_fmap, Hi. simpl.
    eexists. split; [done|]. case_decide; split; try done.
    intros _. split.
    + apply Skill_get_set.
    + intros k Hk. by apply Skill_get_set_ne.
  - intros H. rewrite fmap_unless; [apply ResumeData_eta|].
    intros s Hs Heq. by apply (H s).
Qed.

(** X24: a contact input writes its field and no other part of the
    aggregate; the later of two writes to a field stays, and writes to
    different fields can be done in either order. *)
Theorem setContactField_laws (f f' : ContactInfo.key) (v v' : jsstring)
    (d : ResumeData) :
  let d1 := setContactField f v d in
  ContactInfo.get f (contactInfo d1) = v
  ∧ (f' ≠ f -> ContactInfo.get f' (contactInfo d1) = ContactInfo.get f' (contactInfo d))
  ∧ workExperience d1 = workExperience d
  ∧ education d1 = education d
  ∧ skills d1 = skills d
  ∧ summary d1 = summary d
  ∧ setContactField f v' d1 = setContactField f v' d
  ∧ (f' ≠ f ->
       setContactField f' v' d1 = setContactField f v (setContactField f' v' d)).
Proof.
  intros d1. subst d1. unfold setContactField. simpl.
  split_and!; try done.
  - by destruct f.
  - by destruct f, f'.
  - by destruct f.
  - by destruct f, f'.
Qed.

(** ** Cards and ids *)

Section Cards.
Context {A : Type} (getId : A -> jsstring).

Lemma filter_card (l : list A) (card : nat) (x : A) :
  NoDup (getId <$> l) ->
  l !! card = Some x ->
  filter (λ y, getId y ≠ getId x) l = delete card l.
Proof.
  revert card. induction l as [|a l IH]; intros card Hnd Hx; [done|].
  rewrite fmap_cons in Hnd. apply NoDup_cons in Hnd as [Ha Hnd].
  rewrite filter_cons. destruct card as [|card]; simpl in *.
  - simplify_eq. rewrite decide_False by (by intros H; apply H).
    apply filter_by_id_absent. intros y Hy Heq. apply Ha.
    rewrite <- Heq. by apply list_elem_of_fmap_2.
  - rewrite decide_True.
    + f_equal. by apply IH.
    + intros Heq. apply Ha. rewrite Heq.
      apply list_elem_of_fmap_2. by eapply list_elem_of_lookup_2.
Qed.

Lemma fmap_card (f : A -> A) (l : list A) (card : nat) (x : A) :
  NoDup (getId <$> l) ->
  l !! card = Some x ->
  (λ y, if decide (getId y = getId x) then f y else y) <$> l
  = <[card := f x]> l.
Proof.
  revert card. induction l as [|a l IH]; intros card Hnd Hx; [done|].
  rewrite fmap_cons in Hnd. apply NoDup_cons in Hnd as [Ha Hnd].
  rewrite fmap_cons. destruct card as [|card]; simpl in *.
  - simplify_eq. rewrite decide_True by done. f_equal.
    apply fmap_unless. intros y Hy Heq. apply Ha.
    rewrite <- Heq. by apply list_elem_of_fmap_2.
  - rewrite decide_False.
    + f_equal. by apply IH.
    + intros Heq. apply Ha. rewrite Heq.
      apply list_elem_of_fmap_2. by eapply list_elem_of_lookup_2.
Qed.

Lemma filter_shared_id (l : list A) (i j : nat) (x y : A) :
  l !! i = Some x -> l !! j = Some y -> i ≠ j -> getId x = getId y ->
  (length (filter (λ z, getId z ≠ getId x) l) + 2 <= length l)%nat.
Proof.
  intros Hi Hj Hij Hid.
  pose proof (filter_by_id_length getId (getId x) l) as Hlen.
  cut (2 <= length (filter (λ z, getId z = getId x) l))%nat; [lia|].
  clear Hlen. revert i j Hi Hj Hij.
  induction l as [|a l IH]; intros i j Hi Hj Hij; [done|].
  rewrite filter_cons.
  assert (Hone : ∀ k z, l !! k = Some z -> getId z = getId x ->
                        (1 <= length (filter (λ z, getId z = getId x) l))%nat).
  { clear. intros k z Hk Hz.
    assert (Hin : z ∈ filter (λ z, getId z = getId x) l).
    { apply list_elem_of_filter. split; [done|]. by eapply list_elem_of_lookup_2. }
    destruct (filter _ l); [by apply elem_of_nil in Hin|simpl; lia]. }
  destruct i as [|i], j as [|j]; simpl in *; simplify_eq.
  - rewrite decide_True by done. simpl.
    pose proof (Hone j y Hj (eq_sym Hid)). lia.
  - rewrite decide_True by done. simpl.
    pose proof (Hone i x Hi eq_refl). lia.
  - assert (i ≠ j) by congruence.
    pose proof (IH i j Hi Hj ltac:(done)). case_decide; simpl; lia.
Qed.
End Cards.

(** X25: while the ids of a collection are pairwise distinct, the trash
    button of a card removes that card and no other. *)
Theorem remove_button_removes_its_card (card : nat) (st st' : State) :
  (fire (ClickRemoveExperience card) st = Some st' ->
   NoDup (experienceIds st) ->
   workExperience (resumeData st') = delete card (workExperience (resumeData st)))
  ∧ (fire (ClickRemoveEducation card) st = Some st' ->
     NoDup (educationIds st) ->
     education (resumeData st') = delete card (education (resumeData st)))
  ∧ (fire (ClickRemoveSkill card) st = Some st' ->
     NoDup (skillIds st) ->
     skills (resumeData st') = delete card (skills (resumeData st))).
Proof.
  unfold fire, experienceIds, educationIds, skillIds.
  split_and!; intros H Hnd; destruct (showPreview st); simplify_eq;
    destruct (renderStepContent (currentStep st)) as [[]|]; simpl in H;
    simplify_option_eq; simpl; by apply filter_card.
Qed.

(** X26: while the ids of a collection are pairwise distinct, an input of a
    card writes its field on the item of that card and leaves the other
    items as they are. *)
Theorem input_edits_its_card (card : nat) (st st' : State) :
  (∀ field value,
     fire (InputExperience card field value) st = Some st' ->
     NoDup (experienceIds st) ->
     ∃ exp, workExperience (resumeData st) !! card = Some exp
            ∧ workExperience (resumeData st')
              = <[card := WorkExperience.set field value exp]>
                  (workExperience (resumeData st)))
  ∧ (∀ field value,
       fire (InputEducation card field value) st = Some st' ->
       NoDup (educationIds st) ->
       ∃ edu, education (resumeData st) !! card = Some edu
              ∧ education (resumeData st')
                = <[card := Education.set field value edu]>
                    (education (resumeData st)))
  ∧ (∀ field value,
       fire (InputSkill card field value) st = Some st' ->
       NoDup (skillIds st) ->
       ∃ skill, skills (resumeData st) !! card = Some skill
                ∧ skills (resumeData st')
                  = <[card := Skill.set field value skill]>
                      (skills (resumeData st))).
Proof.
  unfold fire, experienceIds, educationIds, skillIds.
  split_and!; intros field value H Hnd; destruct (showPreview st); simplify_eq;
    destruct (renderStepContent (currentStep st)) as [[]|]; simpl in H;
    simplify_option_eq; repeat case_match; simplify_eq; simpl;
    eexists; (split; [done|]); by apply fmap_card.
Qed.

(** X27: when two cards of the skills carry the same id, the trash button
    of one removes both. *)
Theorem remove_button_with_shared_id (i j : nat) (s1 s2 : Skill.t) (st st' : State) :
  fire (ClickRemoveSkill i) st = Some st' ->
  skills (resumeData st) !! i = Some s1 ->
  skills (resumeData st) !! j = Some s2 ->
  i ≠ j ->
  Skill.id s1 = Skill.id s2 ->
  (length (skills (resumeData st')) + 2 <= length (skills (resumeData st)))%nat
  ∧ s2 ∉ skills (resumeData st').
Proof.
  intros H Hi Hj Hij Hid. unfold fire in H.
  destruct (showPreview st); simplify_eq.
  destruct (renderStepContent (currentStep st)) as [[]|]; simpl in H;
    simplify_option_eq. simpl. split.
  - by eapply (filter_shared_id Skill.id).
  - intros [Hne _]%list_elem_of_filter. by apply Hne.
Qed.

(** ** The save indicator *)

(** Settle the comparisons of times that arithmetic decides. *)
Ltac decide_times :=
  repeat match goal with
    | |- context [?a <? ?b] =>
        first [rewrite (proj2 (Z.ltb_lt a b)) by lia
              |rewrite (proj2 (Z.ltb_ge a b)) by lia]
    | |- context [?a <=? ?b] =>
        first [rewrite (proj2 (Z.leb_le a b)) by lia
              |rewrite (proj2 (Z.leb_gt a b)) by lia]
    end.

Lemma filter_timeoutId_only (h : N) (d : Z) (cb : Callback) :
  filter (λ tm, timeoutId tm ≠ h) [mkTimer h d cb] = [].
Proof.
  rewrite filter_cons, filter_nil. simpl.
  by rewrite decide_False by (by intros H; apply H).
Qed.

Lemma clearPending_quiet (sv : Saver) : timers sv = [] -> clearPending sv = sv.
Proof.
  destruct sv as [s [h|] ts n]; simpl; intros ->; [|done].
  unfold clearPending, clearTimeout. simpl. by rewrite filter_nil.
Qed.

(** One save from its first timer on: what the page shows at time [T]. *)
Lemma cycle_timeline (s : SaveStatus) (r : option N) (h n : N) (d T : Z) :
  elapse T (mkSaver s r [mkTimer h d StartSaving] n) =
    if T <? d then mkSaver s r [mkTimer h d StartSaving] n
    else if T <? d + 1000
    then mkSaver Saving r [mkTimer n (d + 1000) FinishSaving] (N.succ n)
    else if T <? d + 3000
    then mkSaver Saved r [mkTimer (N.succ n) (d + 1000 + 2000) BackToIdle]
           (N.succ (N.succ n))
    else mkSaver Idle r [] (N.succ (N.succ n)).
Proof.
  unfold elapse. simpl.
  destruct (Z.ltb_spec T d); decide_times; [done|].
  unfold clearTimeout. simpl. rewrite filter_timeoutId_only. simpl.
  destruct (Z.ltb_spec T (d + 1000)); decide_times; [done|].
  unfold clearTimeout. simpl. rewrite filter_timeoutId_only. simpl.
  destruct (Z.ltb_spec T (d + 3000)); decide_times; [done|].
  unfold clearTimeout. simpl. by rewrite filter_timeoutId_only.
Qed.

Lemma last_nonempty {A} (a : A) (l : list A) (d d' : A) :
  List.last (a :: l) d = List.last (a :: l) d'.
Proof. revert a. induction l as [|b l IH]; intros a; [done|]. apply (IH b). Qed.

(** After changes in a row, one timer is pending: the one of the last. *)
Lemma rapid_changes_pending (ts : list Z) (t0 : Z) (s : SaveStatus) (h n : N) :
  rapid t0 ts ->
  ∃ h' n',
    saveRun (DataChanges <$> ts)
      (mkSaver s (Some h) [mkTimer h (t0 + 1000) StartSaving] n)
    = mkSaver s (Some h') [mkTimer h' (List.last ts t0 + 1000) StartSaving] n'.
Proof.
  revert t0 h n. induction ts as [|t ts IH]; intros t0 h n Hr.
  - by exists h, n.
  - destruct Hr as [Ht Hr]. simpl.
    rewrite cycle_timeline. decide_times.
    unfold onResumeDataChange, autoSave, clearPending, clearTimeout. simpl.
    rewrite filter_timeoutId_only. simpl. rewrite ?filter_nil. simpl.
    destruct (IH t n (N.succ n) Hr) as (h' & n' & Heq).
    exists h', n'. etransitivity; [exact Heq|].
    do 3 f_equal. destruct ts; [done|]. f_equal. apply last_nonempty.
Qed.

Lemma saveRun_cons ev evs sv : saveRun (ev :: evs) sv = saveRun evs (saveStep sv ev).
Proof. reflexivity. Qed.

Lemma saveRun_app evs1 evs2 sv :
  saveRun (evs1 ++ evs2) sv = saveRun evs2 (saveRun evs1 sv).
Proof. apply foldl_app. Qed.

(** X28: changes of the data that follow each other within a second start
    one save: the indicator keeps what it showed until a second after the
    last change, then shows "Saving..." for a second, "Saved" for two, and
    nothing from then on, with no timer left. *)
Theorem burst_saves_once (sv0 : Saver) (t0 : Z) (ts : list Z) (T : Z) :
  timers sv0 = [] ->
  rapid t0 ts ->
  let tn := List.last ts t0 in
  let sv := saveRun ((DataChanges <$> t0 :: ts) ++ [TimePasses T]) sv0 in
  (T < tn + 1000 -> saveStatus sv = saveStatus sv0)
  ∧ (tn + 1000 <= T < tn + 2000 -> saveStatus sv = Saving)
  ∧ (tn + 2000 <= T < tn + 4000 -> saveStatus sv = Saved)
  ∧ (tn + 4000 <= T -> saveStatus sv = Idle ∧ timers sv = []).
Proof.
  intros Hq Hr tn sv. subst sv.
  rewrite saveRun_app, fmap_cons, (saveRun_cons (DataChanges t0)).
  change (saveStep sv0 (DataChanges t0))
    with (onResumeDataChange t0 (elapse t0 sv0)).
  assert (Hfirst : onResumeDataChange t0 (elapse t0 sv0)
                   = mkSaver (saveStatus sv0) (Some (nextHandle sv0))
                       [mkTimer (nextHandle sv0) (t0 + 1000) StartSaving]
                       (N.succ (nextHandle sv0))).
  { unfold elapse. rewrite Hq. simpl.
    unfold onResumeDataChange, autoSave.
    rewrite !(clearPending_quiet sv0) by done. simpl. by rewrite Hq. }
  rewrite Hfirst.
  destruct (rapid_changes_pending ts t0 (saveStatus sv0) (nextHandle sv0)
              (N.succ (nextHandle sv0)) Hr) as (h' & n' & ->).
  fold tn. cbn [saveRun foldl saveStep]. rewrite cycle_timeline.
  split_and!; intros H; decide_times; simpl; try done.
Qed.

(** X29: the timers of a save are not cancelled by a later change, so the
    end of one save can blank the indicator during the next: after a change
    between two and three seconds after the mount, four seconds after the
    mount the indicator shows nothing although the second save is under way. *)
Theorem indicator_idle_while_saving (t0 t1 : Z) :
  t0 + 2000 < t1 < t0 + 3000 ->
  let sv := saveRun [DataChanges t1; TimePasses (t0 + 4000)] (onMount t0) in
  saveStatus sv = Idle
  ∧ timers sv = [mkTimer 5 (t1 + 1000 + 1000) FinishSaving].
Proof.
  intros H. unfold saveRun, onMount, saveStep, elapse.
  repeat (simpl; decide_times).
  split; reflexivity.
Qed.

Lemma clearTimeout_ok (h : N) (sv : Saver) : saverOk sv -> saverOk (clearTimeout h sv).
Proof.
  intros (Hs & Hlt & Hnd & Href). unfold saverOk, clearTimeout. simpl.
  split_and!; [done| | |].
  - intros tm [_ Hin]%list_elem_of_filter. by apply Hlt.
  - eapply sublist_NoDup; [done|]. apply fmap_sublist, sublist_filter.
  - intros tm [_ Hin]%list_elem_of_filter. by apply Href.
Qed.

Lemma clearPending_ok (sv : Saver) : saverOk sv -> saverOk (clearPending sv).
Proof.
  unfold clearPending. destruct (saveTimeoutRef sv); [apply clearTimeout_ok|done].
Qed.

(** After [clearPending] no first timer of a save is pending. *)
Lemma clearPending_no_start (sv : Saver) (tm : Timer) :
  saverOk sv -> tm ∈ timers (clearPending sv) -> callback tm ≠ StartSaving.
Proof.
  intros (_ & _ & _ & Href) Hin Hcb. unfold clearPending in Hin.
  destruct (saveTimeoutRef sv) as [h|] eqn:Hr.
  - simpl in Hin. apply list_elem_of_filter in Hin as [Hne Hin].
    specialize (Href tm Hin Hcb). congruence.
  - specialize (Href tm Hin Hcb). congruence.
Qed.

Lemma setTimeout_ok (cb : Callback) (delay now : Z) (sv : Saver) :
  cb ≠ StartSaving -> saverOk sv -> saverOk (setTimeout cb delay now sv).2.
Proof.
  intros Hcb (Hs & Hlt & Hnd & Href). unfold saverOk, setTimeout. simpl.
  split_and!; [done| | |].
  - intros tm [Hin | ->%list_elem_of_singleton]%elem_of_app; simpl; [|lia].
    specialize (Hlt tm Hin). lia.
  - rewrite fmap_app. apply NoDup_app. split_and!; [done| |apply NoDup_singleton].
    intros h (tm & -> & Hin)%list_elem_of_fmap Heq%list_elem_of_singleton.
    specialize (Hlt tm Hin). simpl in Heq. lia.
  - intros tm [Hin | ->%list_elem_of_singleton]%elem_of_app; [by apply Href|done].
Qed.

Lemma autoSave_ok (now : Z) (sv : Saver) : saverOk sv -> saverOk (autoSave now sv).
Proof.
  intros Hok. pose proof (clearPending_ok _ Hok) as (Hs & Hlt & Hnd & Href).
  pose proof (clearPending_no_start sv) as Hno.
  unfold saverOk, autoSave, setTimeout. simpl.
  split_and!; [done| | |].
  - intros tm [Hin | ->%list_elem_of_singleton]%elem_of_app; simpl; [|lia].
    specialize (Hlt tm Hin). lia.
  - rewrite fmap_app. apply NoDup_app. split_and!; [done| |apply NoDup_singleton].
    intros h (tm & -> & Hin)%list_elem_of_fmap Heq%list_elem_of_singleton.
    specialize (Hlt tm Hin). simpl in Heq. lia.
  - intros tm [Hin | ->%list_elem_of_singleton]%elem_of_app Hcb; [|done].
    by destruct (Hno tm Hok Hin).
Qed.

Lemma runCallback_ok (now : Z) (cb : Callback) (sv : Saver) :
  saverOk sv -> saverOk (runCallback now cb sv).
Proof.
  intros Hok.
  assert (Hset : ∀ s, s ≠ SaveError -> saverOk (setSaveStatus s sv)).
  { intros s Hs. destruct Hok as (_ & ?). by split. }
  destruct cb; unfold runCallback.
  - by apply setTimeout_ok, Hset.
  - by apply setTimeout_ok, Hset.
  - by apply Hset.
Qed.

Lemma elapseN_ok (fuel : nat) (t : Z) (sv : Saver) :
  saverOk sv -> saverOk (elapseN fuel t sv).
Proof.
  revert sv. induction fuel as [|fuel IH]; intros sv Hok; simpl; [done|].
  destruct (earliest (timers sv)) as [tm|]; [|done].
  destruct (due tm <=? t); [|done].
  by apply IH, runCallback_ok, clearTimeout_ok.
Qed.

Lemma saveRun_ok (evs : list SaveEvent) (sv : Saver) :
  saverOk sv -> saverOk (saveRun evs sv).
Proof.
  revert sv. induction evs as [|ev evs IH]; intros sv Hok; [done|].
  rewrite saveRun_cons. apply IH. destruct ev; simpl.
  - by apply autoSave_ok, clearPending_ok, elapseN_ok.
  - by apply elapseN_ok.
Qed.

Lemma onMount_ok (t0 : Z) : saverOk (onMount t0).
Proof.
  apply autoSave_ok. unfold saverOk. simpl.
  split_and!; [done| |constructor|]; by intros tm Hin%elem_of_nil.
Qed.

Lemma one_pending_start (ts : list Timer) (h : N) :
  NoDup (timeoutId <$> ts) ->
  (∀ tm, tm ∈ ts -> callback tm = StartSaving -> timeoutId tm = h) ->
  (length (filter (λ tm, callback tm = StartSaving) ts) <= 1)%nat.
Proof.
  induction ts as [|tm ts IH]; intros Hnd Hh; [simpl; lia|].
  rewrite fmap_cons in Hnd. apply NoDup_cons in Hnd as [Htm Hnd].
  rewrite filter_cons. case_decide as Hcb.
  - assert (Hnone : filter (λ tm, callback tm = StartSaving) ts = []).
    { destruct (filter _ ts) as [|tm' l] eqn:Hf; [done|].
      assert (Hin : tm' ∈ filter (λ tm, callback tm = StartSaving) ts)
        by (rewrite Hf; left).
      apply list_elem_of_filter in Hin as [Hcb' Hin].
      exfalso. apply Htm.
      assert (E1 : timeoutId tm = h) by (apply Hh; [left|done]).
      assert (E2 : timeoutId tm' = h) by (apply Hh; [by right|done]).
      rewrite E1, <- E2. by apply list_elem_of_fmap_2. }
    rewrite Hnone. simpl. lia.
  - apply IH; [done|]. intros tm' Hin. apply Hh. by right.
Qed.

(** X30: whatever changes and however time passes after the mount, the
    indicator never shows an error, and at most one save is waiting to
    start: the one whose timer the ref holds. *)
Theorem one_save_waits_and_none_fails (t0 : Z) (evs : list SaveEvent) :
  let sv := saveRun evs (onMount t0) in
  saveStatus sv ≠ SaveError
  ∧ (length (filter (λ tm, callback tm = StartSaving) (timers sv)) <= 1)%nat
  ∧ (∀ tm, tm ∈ timers sv -> callback tm = StartSaving ->
           saveTimeoutRef sv = Some (timeoutId tm)).
Proof.
  intros sv.
  destruct (saveRun_ok evs _ (onMount_ok t0)) as (Hs & _ & Hnd & Href).
  fold sv in Hs, Hnd, Href. split_and!; [done| |done].
  destruct (saveTimeoutRef sv) as [h|] eqn:Hr.
  - apply (one_pending_start _ h); [done|].
    intros tm Hin Hcb. specialize (Href tm Hin Hcb). congruence.
  - apply (one_pending_start _ 0%N); [done|].
    intros tm Hin Hcb. specialize (Href tm Hin Hcb). congruence.
Qed.

(** The fuel of [elapse] is enough: once the clock is at [t], nothing due
    by [t] is left to run. *)

Lemma earliest_None (ts : list Timer) : earliest ts = None -> ts = [].
Proof.
  destruct ts as [|a ts]; simpl; [done|].
  destruct (earliest ts) as [b|]; [destruct (due b <? due a)|]; done.
Qed.

Lemma earliest_spec (ts : list Timer) (tm : Timer) :
  earliest ts = Some tm -> tm ∈ ts ∧ ∀ tm', tm' ∈ ts -> due tm <= due tm'.
Proof.
  revert tm. induction ts as [|a ts IH]; intros tm; simpl; [done|].
  destruct (earliest ts) as [b|] eqn:Hb.
  - destruct (IH b eq_refl) as [Hin Hmin].
    destruct (Z.ltb_spec (due b) (due a)); intros [= <-].
    + split; [by right|]. intros tm' [-> | Hin']%elem_of_cons; [lia|by apply Hmin].
    + split; [left|]. intros tm' [-> | Hin']%elem_of_cons; [lia|].
      specialize (Hmin tm' Hin'). lia.
  - intros [= <-]. apply earliest_None in Hb as ->.
    split; [left|]. intros tm' [-> | Hin']%elem_of_cons; [lia|].
    by apply elem_of_nil in Hin'.
Qed.

Lemma pendingWork_app (ts1 ts2 : list Timer) :
  pendingWork (ts1 ++ ts2) = (pendingWork ts1 + pendingWork ts2)%nat.
Proof. induction ts1 as [|tm ts1 IH]; simpl; [done|]. rewrite IH. lia. Qed.

Lemma filter_keeps_all {A} (P : A -> Prop) `{!∀ x, Decision (P x)} (l : list A) :
  (∀ x, x ∈ l -> P x) -> filter P l = l.
Proof.
  intros Hall. induction l as [|a l IH]; [done|].
  rewrite filter_cons, decide_True by (apply Hall; left).
  f_equal. apply IH. intros x Hx. apply Hall. by right.
Qed.

Lemma pendingWork_clear (ts : list Timer) (tm : Timer) :
  NoDup (timeoutId <$> ts) -> tm ∈ ts ->
  (pendingWork (filter (λ x, timeoutId x ≠ timeoutId tm) ts) + chain (callback tm)
   = pendingWork ts)%nat.
Proof.
  induction ts as [|a ts IH]; intros Hnd Hin; [by apply elem_of_nil in Hin|].
  rewrite fmap_cons in Hnd. apply NoDup_cons in Hnd as [Ha Hnd].
  rewrite filter_cons. apply elem_of_cons in Hin as [-> | Hin].
  - rewrite decide_False by (by intros H; apply H).
    rewrite filter_keeps_all; [simpl; lia|].
    intros y Hy Heq. apply Ha. rewrite <- Heq. by apply list_elem_of_fmap_2.
  - rewrite decide_True.
    + simpl. specialize (IH Hnd Hin). lia.
    + intros Heq. apply Ha. rewrite Heq. by apply list_elem_of_fmap_2.
Qed.

Lemma elapseN_complete (fuel : nat) (t : Z) (sv : Saver) (tm : Timer) :
  saverOk sv ->
  (pendingWork (timers sv) <= fuel)%nat ->
  tm ∈ timers (elapseN fuel t sv) -> t < due tm.
Proof.
  revert sv. induction fuel as [|fuel IH]; intros sv Hok Hfuel; simpl.
  - destruct (timers sv) as [|a ts]; [by intros Hin%elem_of_nil|].
    simpl in Hfuel. destruct (callback a); simpl in Hfuel; lia.
  - destruct (earliest (timers sv)) as [a|] eqn:Ha.
    + destruct (earliest_spec _ _ Ha) as [Hin Hmin].
      destruct (Z.leb_spec (due a) t) as [Hdue|Hdue].
      * apply IH; [by apply runCallback_ok, clearTimeout_ok|].
        destruct Hok as (_ & _ & Hnd & _).
        pose proof (pendingWork_clear _ _ Hnd Hin) as Hw.
        destruct (callback a); simpl in *; rewrite ?pendingWork_app; simpl; lia.
      * intros Hin'. specialize (Hmin tm Hin'). lia.
    + apply earliest_None in Ha. rewrite Ha. by intros Hin%elem_of_nil.
Qed.

(** When the clock has advanced to [t], every timer that was due by
    then has run: those still pending are due later. *)
Lemma elapse_runs_what_is_due (t0 t : Z) (evs : list SaveEvent) (tm : Timer) :
  tm ∈ timers (saveRun (evs ++ [TimePasses t]) (onMount t0)) -> t < due tm.
Proof.
  rewrite saveRun_app. cbn [saveRun foldl saveStep]. unfold elapse.
  apply elapseN_complete; [|done].
  apply saveRun_ok, onMount_ok.
Qed.

(** ** Instances of the further properties *)

(** X3 at the end of the sample session. *)
Lemma page_always_renders_witness :
  ∃ st', session sampleClicks initialState = Some st'
         ∧ (∃ title, stepTitle (currentStep st') = Some title)
         ∧ (∃ view, renderStepContent (currentStep st') = Some view).
Proof.
  destruct (session sampleClicks initialState) as [st'|] eqn:H;
    [|vm_compute in H; discriminate].
  exists st'. split; [reflexivity|].
  exact (page_always_renders sampleClicks st' H).
Defined.

(** X4 at the end of the sample session. *)
Lemma summary_error_unreachable_witness :
  ∃ st', session sampleClicks initialState = Some st'
         ∧ errors st' !! "summary" = None.
Proof.
  destruct (session sampleClicks initialState) as [st'|] eqn:H;
    [|vm_compute in H; discriminate].
  exists st'. split; [reflexivity|].
  exact (summary_error_unreachable sampleClicks st' H).
Defined.

(** X5: the four errors of the empty form stay while the form is filled
    in. *)
Lemma errors_refreshed_by_next_only_witness :
  ∃ st', session contactEdits (nextStep initialState) = Some st'
         ∧ errors st' = errors (nextStep initialState).
Proof.
  destruct (session contactEdits (nextStep initialState)) as [st'|] eqn:H;
    [|vm_compute in H; discriminate].
  exists st'. split; [reflexivity|].
  apply (errors_refreshed_by_next_only contactEdits _ st' H). reflexivity.
Defined.

(** X6 at the end of the sample session, on step 3: step 2 validates. *)
Lemma steps_behind_are_valid_witness :
  ∃ st', session sampleClicks initialState = Some st'
         ∧ errors (validateStep 2 st').1 = ∅ ∧ (validateStep 2 st').2 = true.
Proof.
  destruct (session sampleClicks initialState) as [st'|] eqn:H;
    [|vm_compute in H; discriminate].
  exists st'. split; [reflexivity|].
  apply (steps_behind_are_valid sampleClicks st' H);
    [split_and!; apply (bool_decide_unpack _); vm_compute; exact I
    |reflexivity|].
  vm_compute in H. injection H as <-. simpl. lia.
Defined.

(** X7 at the end of the sample session. *)
Lemma progress_covers_steps_behind_witness :
  ∃ st' p, session sampleClicks initialState = Some st'
           ∧ getCompletionPercentage (resumeData st') = Number p
           ∧ 20 * currentStep st' <= p <= 100.
Proof.
  destruct (session sampleClicks initialState) as [st'|] eqn:H;
    [|vm_compute in H; discriminate].
  assert (Hclock : distinctReadings sampleClicks)
    by (split_and!; apply (bool_decide_unpack _); vm_compute; exact I).
  destruct (progress_covers_steps_behind sampleClicks st' H Hclock eq_refl)
    as (p & Hp).
  exists st', p. split; [reflexivity|exact Hp].
Defined.

(** X8: a skill added at the end of the sample session, on step 3. *)
Lemma only_current_section_changes_witness :
  ∃ st st', session sampleClicks initialState = Some st
            ∧ fire (ClickAddSkill 1700000000005) st = Some st'
            ∧ contactInfo (resumeData st') = contactInfo (resumeData st)
            ∧ workExperience (resumeData st') = workExperience (resumeData st)
            ∧ education (resumeData st') = education (resumeData st)
            ∧ summary (resumeData st') = summary (resumeData st).
Proof.
  destruct (session sampleClicks initialState) as [st|] eqn:H;
    [|vm_compute in H; discriminate].
  assert (Hstep : currentStep st = 3 ∧ showPreview st = false)
    by (pose proof H as H'; vm_compute in H'; injection H' as <-;
        split; reflexivity).
  destruct Hstep as [Hstep Hshow].
  assert (Hf : fire (ClickAddSkill 1700000000005) st
               = Some (setResumeData (addSkill 1700000000005) st))
    by (unfold fire; rewrite Hshow, Hstep; reflexivity).
  assert (Hclock : distinctReadings sampleClicks)
    by (split_and!; apply (bool_decide_unpack _); vm_compute; exact I).
  destruct (only_current_section_changes sampleClicks _ st _ H Hclock Hf)
    as (H0 & H1 & H2 & _ & H4).
  exists st, (setResumeData (addSkill 1700000000005) st).
  split; [reflexivity|]. split; [exact Hf|].
  split_and!; [apply H0 | apply H1 | apply H2 | apply H4]; rewrite Hstep; lia.
Defined.

(** X9 at the end of the sample session. *)
Lemma ids_are_clock_readings_witness :
  ∃ st', session sampleClicks initialState = Some st'
         ∧ ∀ skill, skill ∈ skills (resumeData st') ->
             ∃ now, now ∈ skillReadings sampleClicks
                    ∧ Skill.id skill = Number_toString now.
Proof.
  destruct (session sampleClicks initialState) as [st'|] eqn:H;
    [|vm_compute in H; discriminate].
  exists st'. split; [reflexivity|].
  exact (proj2 (proj2 (ids_are_clock_readings sampleClicks st' H))).
Defined.

(** X10 at the end of the sample session. *)
Lemma ids_distinct_when_clock_moves_witness :
  ∃ st', session sampleClicks initialState = Some st'
         ∧ NoDup (experienceIds st') ∧ NoDup (educationIds st')
         ∧ NoDup (skillIds st').
Proof.
  destruct (session sampleClicks initialState) as [st'|] eqn:H;
    [|vm_compute in H; discriminate].
  exists st'. split; [reflexivity|].
  apply (ids_distinct_when_clock_moves sampleClicks st' H);
    apply (bool_decide_unpack _); vm_compute; exact I.
Defined.

(** X11 on a summary of two spaces. *)
Lemma validateStep_summary_witness :
  errors (validateStep 4 (setResumeData (setSummary (js "  ")) initialState)).1
  = {[ "summary" := "Summary is required" ]}
  ∧ (validateStep 4 (setResumeData (setSummary (js "  ")) initialState)).2 = false.
Proof.
  apply (proj1 (validateStep_summary
                  (setResumeData (setSummary (js "  ")) initialState))).
  repeat constructor.
Defined.

(** X12 on "not-an-email". *)
Lemma email_needs_at_and_dot_witness :
  errors (validateStep 0 (mkState 0 contactWithBadEmail ∅ false)).1 !! "email"
  = Some "Email is invalid".
Proof.
  apply (email_needs_at_and_dot (mkState 0 contactWithBadEmail ∅ false)).
  - simpl. discriminate.
  - left. apply (bool_decide_unpack _). vm_compute. exact I.
Defined.

(** X13: an address inside a sentence. *)
Lemma email_accepted_inside_any_text_witness :
  errors (validateStep 0
            (setResumeData
               (setContactField ContactInfo.Email
                  (js "write to " ++ js "a@b.c" ++ js " please"))
               initialState)).1 !! "email" = None.
Proof.
  apply (email_accepted_inside_any_text initialState
           (js "write to ") (js "a@b.c") (js " please")).
  vm_compute. reflexivity.
Defined.

(** X16 on the position of the completed aggregate. *)
Lemma period_of_a_current_position_witness :
  (periodText <$> workExperience
     (updateWorkExperience (js "1700000000001") WorkExperience.Current true
        completeResume)) !! 0%nat
  = Some (js "1842-01" ++ js " - " ++ js "Present")
  ∧ (periodText <$> workExperience
       (updateWorkExperience (js "1700000000001") WorkExperience.Current false
          (updateWorkExperience (js "1700000000001") WorkExperience.Current true
             completeResume))) !! 0%nat
    = Some (js "1842-01" ++ js " - " ++ js "1843-12").
Proof.
  apply (period_of_a_current_position (js "1700000000001") completeResume
           0%nat pastPosition); reflexivity.
Defined.

(** X17 on the completed aggregate: its summary is shown. *)
Lemma previewSections_spec_witness :
  "Professional Summary" ∈ previewSections completeResume.
Proof.
  destruct (previewSections_spec completeResume) as (_ & _ & _ & _ & H & _).
  apply H. vm_compute. reflexivity.
Defined.

(** X18: a skill added to the completed aggregate and removed again. *)
Lemma add_then_remove_witness :
  removeSkill (Number_toString 99) (addSkill 99 completeResume) = completeResume.
Proof.
  destruct (add_then_remove 99 completeResume) as (_ & _ & _ & H).
  apply H. intros skill Hin. apply list_elem_of_singleton in Hin as ->.
  vm_compute. discriminate.
Defined.

(** X19: the company written twice. *)
Lemma updateWorkExperience_twice_witness :
  updateWorkExperience (js "1700000000001") WorkExperience.Company (js "Babbage & Co")
    (updateWorkExperience (js "1700000000001") WorkExperience.Company (js "Babbage")
       completeResume)
  = updateWorkExperience (js "1700000000001") WorkExperience.Company
      (js "Babbage & Co") completeResume.
Proof.
  apply (proj2 (updateWorkExperience_twice (js "1700000000001")
                  WorkExperience.Company (js "Babbage") (js "Babbage & Co")
                  completeResume)).
  discriminate.
Defined.

(** X20: the company and the position of one item, in either order. *)
Lemma updateWorkExperience_commute_witness :
  updateWorkExperience (js "1700000000001") WorkExperience.Company (js "Babbage")
    (updateWorkExperience (js "1700000000001") WorkExperience.Position (js "Analyst")
       completeResume)
  = updateWorkExperience (js "1700000000001") WorkExperience.Position (js "Analyst")
      (updateWorkExperience (js "1700000000001") WorkExperience.Company (js "Babbage")
         completeResume).
Proof.
  apply updateWorkExperience_commute; [discriminate|discriminate|].
  right. discriminate.
Defined.

(** X21: the company written, then the item removed. *)
Lemma update_and_remove_witness :
  workExperience
    (removeWorkExperience (js "1700000000001")
       (updateWorkExperience (js "1700000000001") WorkExperience.Company
          (js "Babbage") completeResume))
  = workExperience (removeWorkExperience (js "1700000000001") completeResume).
Proof.
  apply (proj2 (update_and_remove (js "1700000000001") WorkExperience.Company
                  (js "Babbage") completeResume)).
  discriminate.
Defined.

(** X22: an id no education entry has. *)
Lemma updateEducation_frame_witness :
  updateEducation (js "42") Education.Degree (js "BSc") completeResume
  = completeResume.
Proof.
  destruct (updateEducation_frame (js "42") Education.Degree (js "BSc")
              completeResume) as (_ & _ & _ & _ & _ & _ & H).
  apply H. intros e Hin. apply list_elem_of_singleton in Hin as ->.
  vm_compute. discriminate.
Defined.

(** X23: an id no skill has. *)
Lemma updateSkill_frame_witness :
  updateSkill (js "42") Skill.Name (js "Algebra") completeResume = completeResume.
Proof.
  destruct (updateSkill_frame (js "42") Skill.Name (js "Algebra") completeResume)
    as (_ & _ & _ & _ & _ & _ & H).
  apply H. intros s Hin. apply list_elem_of_singleton in Hin as ->.
  vm_compute. discriminate.
Defined.

(** X24: the e-mail address and the phone number, in either order. *)
Lemma setContactField_laws_witness :
  setContactField ContactInfo.Phone (js "555-0100")
    (setContactField ContactInfo.Email (js "ada@example.org") initialResumeData)
  = setContactField ContactInfo.Email (js "ada@example.org")
      (setContactField ContactInfo.Phone (js "555-0100") initialResumeData).
Proof.
  destruct (setContactField_laws ContactInfo.Email ContactInfo.Phone
              (js "ada@example.org") (js "555-0100") initialResumeData)
    as (_ & _ & _ & _ & _ & _ & _ & H).
  apply H. discriminate.
Defined.

(** X25: the only skill of the completed aggregate, removed by its card. *)
Lemma remove_button_removes_its_card_witness :
  ∃ st', fire (ClickRemoveSkill 0) onSkills = Some st'
         ∧ skills (resumeData st') = delete 0%nat (skills completeResume).
Proof.
  eexists. split; [reflexivity|].
  apply (proj2 (proj2 (remove_button_removes_its_card 0 onSkills _)));
    [reflexivity|].
  apply (bool_decide_unpack _). vm_compute. exact I.
Defined.

(** X26: the name of the only skill, edited in its card. *)
Lemma input_edits_its_card_witness :
  ∃ st' skill,
    fire (InputSkill 0 Skill.Name (js "Algebra")) onSkills = Some st'
    ∧ skills (resumeData onSkills) !! 0%nat = Some skill
    ∧ skills (resumeData st')
      = <[0%nat := Skill.set Skill.Name (js "Algebra") skill]>
          (skills (resumeData onSkills)).
Proof.
  eexists.
  destruct (proj2 (proj2 (input_edits_its_card 0 onSkills _))
              Skill.Name (js "Algebra") eq_refl) as (skill & H1 & H2).
  { apply (bool_decide_unpack _). vm_compute. exact I. }
  exists skill. split_and!; [reflexivity|exact H1|exact H2].
Defined.

(** X27: of two skills added within a millisecond, none survives the
    removal of the first. *)
Lemma remove_button_with_shared_id_witness :
  ∃ st', fire (ClickRemoveSkill 0) twinSkills = Some st'
         ∧ (length (skills (resumeData st')) + 2
            <= length (skills (resumeData twinSkills)))%nat
         ∧ Skill.mk (js "1700000000000") [] Skill.Beginner
           ∉ skills (resumeData st').
Proof.
  eexists. split; [reflexivity|].
  apply (remove_button_with_shared_id 0 1
           (Skill.mk (js "1700000000000") [] Skill.Beginner)
           (Skill.mk (js "1700000000000") [] Skill.Beginner) twinSkills);
    [reflexivity|reflexivity|reflexivity|lia|reflexivity].
Defined.

(** X28: changes at 0, 400 and 900 ms: at 2000 ms the page is saving. *)
Lemma burst_saves_once_witness :
  saveStatus
    (saveRun ((DataChanges <$> [0; 400; 900]) ++ [TimePasses 2000]) initialSaver)
  = Saving.
Proof.
  destruct (burst_saves_once initialSaver 0 [400; 900] 2000 eq_refl)
    as (_ & H & _).
  - simpl. lia.
  - apply H. simpl. lia.
Defined.

(** X29: a change 2.5 s after the mount. *)
Lemma indicator_idle_while_saving_witness :
  saveStatus (saveRun [DataChanges 2500; TimePasses (0 + 4000)] (onMount 0)) = Idle
  ∧ timers (saveRun [DataChanges 2500; TimePasses (0 + 4000)] (onMount 0))
    = [mkTimer 5 (2500 + 1000 + 1000) FinishSaving].
Proof. apply (indicator_idle_while_saving 0 2500). lia. Defined.

(** X30: a change half a second after the mount, seen at 1.7 s. *)
Lemma one_save_waits_and_none_fails_witness :
  saveStatus (saveRun [DataChanges 500; TimePasses 1700] (onMount 0)) ≠ SaveError.
Proof.
  exact (proj1 (one_save_waits_and_none_fails 0 [DataChanges 500; TimePasses 1700])).
Defined.
